(** * ZipUtil: the archive index, the entry reader and the archive writer

    A shallow embedding of [src/utils/ZipUtil.cpp] (SumatraPDF): the quick
    hash of a file name, the index built when an archive is opened, the
    lookup of an entry by name, the extraction of an entry into memory or to
    a file, and the list of files a [ZipCreator] collects.

    The archive codec (minizip), the allocator, the file system and the
    string helpers are collaborators of that file: the codec and the host
    answer through records of responses, and every call made to them is
    written to an event log, so that statements about allocation, release
    and the order of calls can be read off the log. *)

From Stdlib Require Import ZArith List Bool Lia Permutation String Ascii.
Import ListNotations.
Open Scope Z_scope.

(** ** Strings and machine integers *)

(** A [TCHAR] is a code unit; a C string is the list of the characters that
    precede its terminator. *)
Definition TCHAR := Z.
Definition tstring := list TCHAR.

(** Narrow strings ([char *]) are lists of bytes, same convention. *)
Definition cstring := list Z.

Definition tstr (s : string) : tstring :=
  map (fun a => Z.of_N (N_of_ascii a)) (list_ascii_of_string s).

(** [uint32_t] arithmetic wraps modulo 2^32. *)
Definition u32 (x : Z) : Z := x mod 2 ^ 32.

(** The platform size type: 32 bits on Win32, 64 bits on Win64. *)
Inductive Platform := Win32 | Win64.

Definition size_bits (p : Platform) : Z :=
  match p with Win32 => 32 | Win64 => 64 end.

Definition to_size_t (p : Platform) (x : Z) : Z := x mod 2 ^ size_bits p.

(** [(size_t)-1] *)
Definition NOT_FOUND (p : Platform) : Z := to_size_t p (-1).

(** [(unsigned int)x] *)
Definition to_uint (x : Z) : Z := x mod 2 ^ 32.

Definition UNZ_OK : Z := 0.
Definition MAX_PATH : Z := 260.
Definition sizeof_WCHAR : Z := 2.
Definition CP_ZIP : Z := 437.
Definition CP_UTF8 : Z := 65001.

(** [INVALID_ZIP_FILE_POS] is [((ZPOS64_T)-1)]. *)
Definition INVALID_ZIP_FILE_POS : Z := 2 ^ 64 - 1.

(** ** Results of a run

    A run returns, or it faults (an index past the end of a [Vec]), or the
    model runs out of fuel (the loop did not finish within the given number
    of iterations). *)
Inductive res (A : Type) : Type :=
| Ret (a : A)
| Fault
| OutOfFuel.
Arguments Ret {A} a.
Arguments Fault {A}.
Arguments OutOfFuel {A}.

(** ** String helpers of the code base *)

(** Modelled from the spec: [_totlower] is the C runtime's, and the spec
    allows only simple ASCII lower-casing: 'A'..'Z' go to 'a'..'z', every
    other code unit is left as it is. *)
Definition totlower (c : Z) : Z :=
  if (65 <=? c) && (c <=? 90) then c + 32 else c.

(** Modelled from the spec: [str::EqI] (StrUtil) is the case-insensitive
    equality of two whole strings. *)
Fixpoint EqI (s1 s2 : tstring) : bool :=
  match s1, s2 with
  | [], [] => true
  | c1 :: r1, c2 :: r2 => (totlower c1 =? totlower c2) && EqI r1 r2
  | _, _ => false
  end.

(** Modelled from the spec: [Vec<T>::Find(el, startAt)] (Vec.h) scans from
    position [startAt] on, that position included, and returns the index of
    the first element equal to [el], or -1. *)
Fixpoint Find_at (els : list Z) (el : Z) (startAt : Z) (i : Z) : Z :=
  match els with
  | [] => -1
  | x :: rest =>
      if (startAt <=? i) && (x =? el) then i
      else Find_at rest el startAt (i + 1)
  end.

Definition Find (els : list Z) (el : Z) (startAt : Z) : Z :=
  Find_at els el startAt 0.

(** [Vec<T>::At(i)]: the element at [i]; past the end there is none. *)
Definition At {A : Type} (els : list A) (i : Z) : option A :=
  if i <? 0 then None else nth_error els (Z.to_nat i).

Definition Count {A : Type} (els : list A) : Z := Z.of_nat (List.length els).

(** ** Quick hash *)

(** One turn of the inner loop: shift left, and mix in the CRC-32
    polynomial when the top bit was set. *)
Definition crc_bit (bits : Z) : Z :=
  if Z.land bits 0x80000000 =? 0
  then u32 (Z.shiftl bits 1)
  else Z.lxor (u32 (Z.shiftl bits 1)) 0x04C11DB7.

(** The body of the outer loop, for the byte that is mixed in. *)
Definition crc_mix (crc : Z) (b : Z) : Z :=
  let bits := Z.land (Z.lxor crc (Z.shiftl b 24)) 0xFF000000 in
  let bits := Nat.iter 8 crc_bit bits in
  Z.lxor (u32 (Z.shiftl crc 8)) bits.

(** The byte a character contributes: the low byte of its lower case. *)
Definition fold_byte (c : TCHAR) : Z := Z.land (totlower c) 0xFF.

Definition hash_step (crc : Z) (c : TCHAR) : Z := crc_mix crc (fold_byte c).

(** [GetQuickHashI]: the loop runs over the characters up to the
    terminator, starting from 0. *)
Definition GetQuickHashI (str : tstring) : Z := fold_left hash_step str 0.

(** ** The archive as the codec presents it *)

Record unz_file_info64 := {
  compressed_size : Z;
  uncompressed_size : Z;
  dosDate : Z;
  flag : Z;
  compression_method : Z
}.

Record unz64_file_pos := {
  pos_in_zip_directory : Z;
  num_of_file : Z
}.

(** One position of the directory cursor: the raw name and descriptor of
    the entry there, and what the codec answers to the three calls the
    enumeration makes at that position. *)
Record DirEntry := {
  raw_name : cstring;
  info : unz_file_info64;
  info_err : Z;          (* unzGetCurrentFileInfo64 *)
  pos : unz64_file_pos;
  pos_err : Z;           (* unzGetFilePos64 *)
  next_err : Z           (* unzGoToNextFile *)
}.

(** An opened archive ([unzFile]). *)
Record unzFile := {
  ginfo_err : Z;         (* unzGetGlobalInfo64 *)
  number_entry : Z;
  size_comment : Z;
  directory : list DirEntry
}.

(** ** The handle *)

Record ZipFile := {
  uf : option unzFile;
  filenames : list tstring;
  filenameHashes : list Z;
  fileinfo : list unz_file_info64;
  filepos : list unz64_file_pos;
  commentLen : Z
}.

(** ** Lookup by name *)

(** The loop of [GetFileIndex]: [i] is assigned the result of [Find] and
    the loop has no increment of its own. *)
Fixpoint GetFileIndex_loop (p : Platform) (fuel : nat) (zf : ZipFile)
    (filename : tstring) (hash : Z) (i : Z) : res Z :=
  match fuel with
  | O => OutOfFuel
  | S fuel' =>
      let i' := Find (filenameHashes zf) hash i in
      if i' =? -1 then Ret (NOT_FOUND p)
      else match At (filenames zf) i' with
           | None => Fault
           | Some name =>
               if EqI filename name then Ret i'
               else GetFileIndex_loop p fuel' zf filename hash i'
           end
  end.

Definition GetFileIndex (p : Platform) (fuel : nat) (zf : ZipFile)
    (filename : tstring) : res Z :=
  GetFileIndex_loop p fuel zf filename (GetQuickHashI filename) 0.

Definition GetFileCount (zf : ZipFile) : Z := Count (filenames zf).

Definition GetFileName (zf : ZipFile) (fileindex : Z) : option tstring :=
  if Count (filenames zf) <=? fileindex then None
  else At (filenames zf) fileindex.

(** ** Collaborators *)

(** The helpers that move a name through a buffer of a given size. They are
    not part of ZipUtil.cpp; each takes the size of the destination buffer
    and yields the C string found in it afterwards.
    - [unz_szFileName n raw]: the name [unzGetCurrentFileInfo64] leaves in a
      [szFileName] buffer of [n] bytes for an entry whose raw name is [raw];
    - [FromCodePageBuf n s cp]: [str::conv::FromCodePageBuf];
    - [ToCodePageBuf n s cp]: [str::conv::ToCodePageBuf]. *)
Class BufOps := {
  unz_szFileName : Z -> cstring -> cstring;
  FromCodePageBuf : Z -> cstring -> Z -> tstring;
  ToCodePageBuf : Z -> tstring -> Z -> cstring
}.

Record FILETIME := {
  dwLowDateTime : Z;
  dwHighDateTime : Z
}.

(** The two conversions of the Windows API used by [GetFileTime]. *)
Class WinTime := {
  DosDateTimeToFileTime : Z -> Z -> FILETIME;
  LocalFileTimeToFileTime : FILETIME -> FILETIME
}.

(** The file system and the path helpers used by [ZipCreator::AddFile]. *)
Class PathOps := {
  file_Exists : tstring -> bool;
  path_IsAbsolute : tstring -> bool;
  path_GetBaseName : tstring -> tstring
}.

(** What the codec, the allocator and the file system answer during one
    call of a reader operation. *)
Record Answers := {
  ans_GoToFilePos64 : unz64_file_pos -> Z;
  ans_LocateFile : cstring -> Z;
  ans_OpenCurrentFile : Z;
  ans_Alloc : Z -> bool;
  (* requested length -> value returned (an int), bytes delivered *)
  ans_ReadCurrentFile : Z -> Z * list Z;
  ans_CloseCurrentFile : Z;
  ans_GetGlobalComment : Z -> Z * list Z;
  ans_WriteAll : tstring -> list Z -> bool
}.

(** ** Effects: the log of calls *)

Inductive Event :=
| E_unzGoToFilePos64 (fpos : unz64_file_pos)
| E_unzLocateFile (name : cstring)
| E_unzOpenCurrentFile
| E_unzReadCurrentFile (len : Z)
| E_unzCloseCurrentFile
| E_unzGetGlobalComment (len : Z)
| E_Alloc (size : Z) (ok : bool)
| E_Free (buffer : bool)   (* [true]: a buffer is released; [false]: Free(NULL) *)
| E_WriteAll (path : tstring) (data : list Z).

Definition M (A : Type) : Type := list Event -> res (A * list Event).

Definition ret {A : Type} (a : A) : M A := fun log => Ret (a, log).

Definition bind {A B : Type} (m : M A) (f : A -> M B) : M B :=
  fun log =>
    match m log with
    | Ret (a, log') => f a log'
    | Fault => Fault
    | OutOfFuel => OutOfFuel
    end.

Definition emit (e : Event) : M unit := fun log => Ret (tt, log ++ [e]).

Definition lift {A : Type} (r : res A) : M A :=
  fun log =>
    match r with
    | Ret a => Ret (a, log)
    | Fault => Fault
    | OutOfFuel => OutOfFuel
    end.

(** [Vec::At] inside an operation: a fault past the end. *)
Definition at_ {A : Type} (els : list A) (i : Z) : M A :=
  match At els i with
  | Some x => ret x
  | None => lift Fault
  end.

Declare Scope zip_scope.
Delimit Scope zip_scope with zip.
Notation "x <- m ;; k" := (bind m (fun x => k))
  (at level 61, m at next level, right associativity) : zip_scope.
Notation "m ;; k" := (bind m (fun _ => k))
  (at level 61, right associativity) : zip_scope.
Open Scope zip_scope.

(** ** Enumeration at open time *)

(** The code page of an entry: bit 11 of the general purpose flag selects
    UTF-8, otherwise code page 437. *)
Definition entry_cp (fi : unz_file_info64) : Z :=
  if Z.land (flag fi) (Z.shiftl 1 11) =? 0 then CP_ZIP else CP_UTF8.

Definition set_num_of_file (fpos : unz64_file_pos) (n : Z) : unz64_file_pos :=
  {| pos_in_zip_directory := pos_in_zip_directory fpos; num_of_file := n |}.

(** What one turn of the loop appends for the entry under the cursor. *)
Definition append_entry `{BufOps} (e : DirEntry) (zf : ZipFile) : ZipFile :=
  let fileName := unz_szFileName MAX_PATH (raw_name e) in
  let fileNameT := FromCodePageBuf MAX_PATH fileName (entry_cp (info e)) in
  let fpos := if pos_err e =? UNZ_OK then pos e
              else set_num_of_file (pos e) INVALID_ZIP_FILE_POS in
  {| uf := uf zf;
     filenames := filenames zf ++ [fileNameT];
     filenameHashes := filenameHashes zf ++ [GetQuickHashI fileNameT];
     fileinfo := fileinfo zf ++ [info e];
     filepos := filepos zf ++ [fpos];
     commentLen := commentLen zf |}.

(** The loop of [ExtractFilenames]. [todo] is [number_entry - i]; [cursor]
    holds the positions the directory cursor can still visit. The loop goes
    on while [i < number_entry] and the last [unzGoToNextFile] answered
    [UNZ_OK]; a cursor with no position left has nothing to answer. *)
Fixpoint ExtractFilenames_loop `{BufOps} (todo : nat) (cursor : list DirEntry)
    (zf : ZipFile) : ZipFile :=
  match todo, cursor with
  | S todo', e :: cursor' =>
      let zf' := if info_err e =? UNZ_OK then append_entry e zf else zf in
      if next_err e =? UNZ_OK then ExtractFilenames_loop todo' cursor' zf'
      else zf'
  | _, _ => zf
  end.

Definition set_commentLen (zf : ZipFile) (n : Z) : ZipFile :=
  {| uf := uf zf; filenames := filenames zf;
     filenameHashes := filenameHashes zf; fileinfo := fileinfo zf;
     filepos := filepos zf; commentLen := n |}.

Definition ExtractFilenames `{BufOps} (zf : ZipFile) : ZipFile :=
  match uf zf with
  | None => zf
  | Some a =>
      if negb (ginfo_err a =? UNZ_OK) then zf
      else
        set_commentLen
          (ExtractFilenames_loop (Z.to_nat (number_entry a)) (directory a) zf)
          (size_comment a)
  end.

(** The constructors: [u] is what [unzOpen2_64] returned. *)
Definition ZipFile_new `{BufOps} (u : option unzFile) : ZipFile :=
  let zf := {| uf := u; filenames := []; filenameHashes := [];
               fileinfo := []; filepos := []; commentLen := 0 |} in
  match u with
  | Some _ => ExtractFilenames zf
  | None => zf
  end.

(** ** Reading an entry *)

Definition is_some {A : Type} (o : option A) : bool :=
  match o with Some _ => true | None => false end.

(** [GetFileData(size_t fileindex, size_t *len)]: the buffer and the length
    stored through [len], or [None] for [NULL]. *)
Definition GetFileData `{BufOps} (p : Platform) (w : Answers) (zf : ZipFile)
    (fileindex : Z) : M (option (list Z * Z)) :=
  match uf zf with
  | None => ret None
  | Some _ =>
    if Count (filenames zf) <=? fileindex then ret None
    else
      fpos <- at_ (filepos zf) fileindex ;;
      err <- (if num_of_file fpos =? INVALID_ZIP_FILE_POS then ret (-1)
              else emit (E_unzGoToFilePos64 fpos) ;;
                   ret (ans_GoToFilePos64 w fpos)) ;;
      err <- (if err =? UNZ_OK then ret err
              else
                fi <- at_ (fileinfo zf) fileindex ;;
                name <- at_ (filenames zf) fileindex ;;
                let fileNameA := ToCodePageBuf MAX_PATH name (entry_cp fi) in
                emit (E_unzLocateFile fileNameA) ;;
                ret (ans_LocateFile w fileNameA)) ;;
      if negb (err =? UNZ_OK) then ret None
      else
        emit E_unzOpenCurrentFile ;;
        if negb (ans_OpenCurrentFile w =? UNZ_OK) then ret None
        else
          fi <- at_ (fileinfo zf) fileindex ;;
          let len2 := to_size_t p (uncompressed_size fi) in
          (* overflow check *)
          if negb (len2 =? uncompressed_size fi)
             || (to_size_t p (len2 + sizeof_WCHAR) <? sizeof_WCHAR)
          then emit E_unzCloseCurrentFile ;; ret None
          else
            let size := to_size_t p (len2 + sizeof_WCHAR) in
            let ok := ans_Alloc w size in
            emit (E_Alloc size ok) ;;
            result <- (if ok then
                         let '(r, bytes) := ans_ReadCurrentFile w (to_uint len2) in
                         emit (E_unzReadCurrentFile (to_uint len2)) ;;
                         let readBytes := to_uint r in
                         if negb (readBytes =? len2)
                         then emit (E_Free true) ;; ret None
                         else ret (Some (firstn (Z.to_nat len2) bytes ++ [0; 0],
                                         len2))
                       else ret None) ;;
            emit E_unzCloseCurrentFile ;;
            if negb (ans_CloseCurrentFile w =? UNZ_OK)
            then (* CRC mismatch, file content is likely damaged *)
              emit (E_Free (is_some result)) ;; ret None
            else ret result
  end.

(** [GetFileData(const TCHAR *filename, size_t *len)] *)
Definition GetFileData_name `{BufOps} (p : Platform) (fuel : nat) (w : Answers)
    (zf : ZipFile) (filename : tstring) : M (option (list Z * Z)) :=
  fileindex <- lift (GetFileIndex p fuel zf filename) ;;
  GetFileData p w zf fileindex.

Definition DWORD_minus1 : Z := 2 ^ 32 - 1.

(** [FILETIME ft = { -1, -1 }] *)
Definition invalid_FILETIME : FILETIME :=
  {| dwLowDateTime := DWORD_minus1; dwHighDateTime := DWORD_minus1 |}.

Definition HIWORD (x : Z) : Z := Z.land (Z.shiftr x 16) 0xFFFF.
Definition LOWORD (x : Z) : Z := Z.land x 0xFFFF.

Definition GetFileTime `{WinTime} (zf : ZipFile) (fileindex : Z) : res FILETIME :=
  if is_some (uf zf) && (fileindex <? Count (fileinfo zf)) then
    match At (fileinfo zf) fileindex with
    | Some fi =>
        let ftLocal :=
          DosDateTimeToFileTime (HIWORD (dosDate fi)) (LOWORD (dosDate fi)) in
        Ret (LocalFileTimeToFileTime ftLocal)
    | None => Fault
    end
  else Ret invalid_FILETIME.

Definition GetFileTime_name `{WinTime} (p : Platform) (fuel : nat)
    (zf : ZipFile) (filename : tstring) : res FILETIME :=
  match GetFileIndex p fuel zf filename with
  | Ret fileindex => GetFileTime zf fileindex
  | Fault => Fault
  | OutOfFuel => OutOfFuel
  end.

(** [GetComment]: the scratch buffer is a [ScopedMem], released on every
    path that does not hand it to the caller. *)
Definition GetComment (w : Answers) (zf : ZipFile) : M (option (list Z * Z)) :=
  let ok := ans_Alloc w (commentLen zf + 1) in
  emit (E_Alloc (commentLen zf + 1) ok) ;;
  if negb ok then ret None
  else if negb (is_some (uf zf)) then emit (E_Free true) ;; ret None
  else
    let '(read, bytes) := ans_GetGlobalComment w (commentLen zf) in
    emit (E_unzGetGlobalComment (commentLen zf)) ;;
    if read <=? 0 then emit (E_Free true) ;; ret None
    else ret (Some (bytes, commentLen zf)).

(** ** Extraction to a file *)

Definition BACKSLASH : Z := 92.
Definition SLASH : Z := 47.

(** Modelled from the spec: [str::EndsWith] (StrUtil), for a one-character
    suffix: whether the string ends with that character. *)
Definition EndsWith1 (s : tstring) (c : Z) : bool :=
  match rev s with
  | x :: _ => x =? c
  | [] => false
  end.

(** Modelled from the spec: [str::TransChars] (StrUtil), for one-character
    sets: every occurrence of [from] in the string is replaced by [to]. *)
Definition TransChars (s : tstring) (from to : Z) : tstring :=
  map (fun c => if c =? from then to else c) s.

(** The path [UnzipFile] writes to. *)
Definition UnzipFile_path (filename dir : tstring)
    (unzippedName : option tstring) : tstring :=
  let filePath := dir in
  let filePath := if negb (EndsWith1 filePath BACKSLASH)
                  then filePath ++ [BACKSLASH] else filePath in
  match unzippedName with
  | Some n => filePath ++ n
  | None => TransChars (filePath ++ filename) SLASH BACKSLASH
  end.

Definition UnzipFile `{BufOps} (p : Platform) (fuel : nat) (w : Answers)
    (zf : ZipFile) (filename dir : tstring) (unzippedName : option tstring)
    : M bool :=
  data <- GetFileData_name p fuel w zf filename ;;
  match data with
  | None => ret false
  | Some (buf, len) =>
      let filePath := UnzipFile_path filename dir unzippedName in
      let content := firstn (Z.to_nat len) buf in
      let ok := ans_WriteAll w filePath content in
      emit (E_WriteAll filePath content) ;;
      emit (E_Free true) ;;
      ret ok
  end.

(** ** The archive writer *)

(** [ZipCreatorData::pathsAndZipNames]: path, name, path, name, ... *)
Definition ZipCreator := list tstring.

(** [AddFile(filePath, nameInZip)]; [None] is a [NULL] name. *)
Definition AddFile `{PathOps} (d : ZipCreator) (filePath : tstring)
    (nameInZip : option tstring) : bool * ZipCreator :=
  if negb (file_Exists filePath) then (false, d)
  else
    let d := d ++ [filePath] in
    let nameInZip :=
      match nameInZip with
      | None => if path_IsAbsolute filePath
                then path_GetBaseName filePath
                else filePath
      | Some n => n
      end in
    (true, d ++ [nameInZip]).

(** ** Instances used in examples

    Plain ASCII names: bytes and code units coincide, and a buffer of [n]
    characters holds at most [n - 1] characters and the terminator. *)
Definition in_buf (n : Z) (s : list Z) : list Z := firstn (Z.to_nat (n - 1)) s.

Definition ascii_BufOps : BufOps :=
  {| unz_szFileName := fun n raw => in_buf n raw;
     FromCodePageBuf := fun n s _ => in_buf n s;
     ToCodePageBuf := fun n s _ => in_buf n s |}.

(** Modelled from the spec: [path::IsSep] (FileUtil): both '/' and the host
    separator separate path components. *)
Definition IsSep (c : Z) : bool := (c =? BACKSLASH) || (c =? SLASH).

(** Modelled from the spec: [path::IsAbsolute] (FileUtil): a path is
    absolute when it is rooted (starts with a separator) or drive-rooted
    (a drive letter followed by ':'). *)
Definition IsAbsolute (path : tstring) : bool :=
  match path with
  | c :: rest =>
      IsSep c || match rest with c2 :: _ => c2 =? 58 | [] => false end
  | [] => false
  end.

(** Modelled from the spec: [path::GetBaseName] (FileUtil): the base file
    name, what follows the last separator of the path. *)
Fixpoint GetBaseName (path : tstring) : tstring :=
  match path with
  | [] => []
  | _ :: rest => if existsb IsSep path then GetBaseName rest else path
  end.

Fixpoint tstring_eqb (a b : tstring) : bool :=
  match a, b with
  | [], [] => true
  | x :: a', y :: b' => (x =? y) && tstring_eqb a' b'
  | _, _ => false
  end.

(** A file system on which exactly the files of [files] exist. *)
Definition PathOps_on (files : list tstring) : PathOps :=
  {| file_Exists := fun f => existsb (tstring_eqb f) files;
     path_IsAbsolute := IsAbsolute;
     path_GetBaseName := GetBaseName |}.

(** Handles built by the constructors keep the four vectors in step, and
    every stored hash is the hash of the stored name. *)
Definition wf (zf : ZipFile) : Prop :=
  List.length (filenameHashes zf) = List.length (filenames zf) /\
  List.length (fileinfo zf) = List.length (filenames zf) /\
  List.length (filepos zf) = List.length (filenames zf) /\
  filenameHashes zf = map GetQuickHashI (filenames zf).

(** The entries the enumeration loop appends: the loop again, looking at
    the answers of the codec only. *)
Fixpoint accepted (todo : nat) (cursor : list DirEntry) : list DirEntry :=
  match todo, cursor with
  | S todo', e :: cursor' =>
      let here := if info_err e =? UNZ_OK then [e] else [] in
      if next_err e =? UNZ_OK then here ++ accepted todo' cursor' else here
  | _, _ => []
  end.

(** The name stored for an entry. *)
Definition stored_name `{BufOps} (e : DirEntry) : tstring :=
  FromCodePageBuf MAX_PATH (unz_szFileName MAX_PATH (raw_name e))
    (entry_cp (info e)).

(** The destination path as the specification words it: the directory, one
    separator, then the override name or the entry name with its '/'
    translated; only the name is translated. *)
Definition join_dir (dir : tstring) : tstring :=
  if EndsWith1 dir BACKSLASH then dir else dir ++ [BACKSLASH].

Definition spec_extract_path (filename dir : tstring)
    (unzippedName : option tstring) : tstring :=
  join_dir dir ++
  match unzippedName with
  | Some n => n
  | None => TransChars filename SLASH BACKSLASH
  end.

(** ** Archives used in examples *)

Definition UNZ_END_OF_LIST_OF_FILE : Z := -100.

Definition plain_info (size : Z) : unz_file_info64 :=
  {| compressed_size := size; uncompressed_size := size; dosDate := 0;
     flag := 0; compression_method := 0 |}.

(** The directory of an archive whose entries have the given names and
    sizes, read without error: the codec answers [UNZ_OK] everywhere except
    for the step past the last entry. *)
Fixpoint directory_of (i : Z) (entries : list (cstring * Z)) : list DirEntry :=
  match entries with
  | [] => []
  | (name, size) :: rest =>
      {| raw_name := name;
         info := plain_info size;
         info_err := UNZ_OK;
         pos := {| pos_in_zip_directory := 0; num_of_file := i |};
         pos_err := UNZ_OK;
         next_err := match rest with
                     | [] => UNZ_END_OF_LIST_OF_FILE
                     | _ => UNZ_OK
                     end |} :: directory_of (i + 1) rest
  end.

Definition archive_of (entries : list (cstring * Z)) : unzFile :=
  {| ginfo_err := UNZ_OK;
     number_entry := Z.of_nat (List.length entries);
     size_comment := 0;
     directory := directory_of 0 entries |}.

Definition open_archive (entries : list (cstring * Z)) : ZipFile :=
  @ZipFile_new ascii_BufOps (Some (archive_of entries)).

(** Two entries whose names have the same quick hash. *)
Definition two_colliding : ZipFile :=
  open_archive [(tstr "ojmsy", 3); (tstr "1.txt", 5)].

Definition one_colliding : ZipFile := open_archive [(tstr "ojmsy", 3)].


(** Answers of a codec, an allocator and a file system on which every call
    succeeds; the read delivers [bytes] and the closing call answers
    [close]. *)
Definition answers (bytes : list Z) (close : Z) : Answers :=
  {| ans_GoToFilePos64 := fun _ => UNZ_OK;
     ans_LocateFile := fun _ => UNZ_OK;
     ans_OpenCurrentFile := UNZ_OK;
     ans_Alloc := fun _ => true;
     ans_ReadCurrentFile := fun _ => (Z.of_nat (List.length bytes), bytes);
     ans_CloseCurrentFile := close;
     ans_GetGlobalComment := fun _ => (0, []);
     ans_WriteAll := fun _ _ => true |}.

Definition UNZ_CRCERROR : Z := -105.

(** The events of a log that allocate, whether they succeed or not. *)
Definition is_Alloc (e : Event) : bool :=
  match e with E_Alloc _ _ => true | _ => false end.

(** The value [unzReadCurrentFile] returns for the read [GetFileData]
    makes of an entry with descriptor [fi]. *)
Definition read_result (p : Platform) (w : Answers) (fi : unz_file_info64) : Z :=
  fst (ans_ReadCurrentFile w (to_uint (to_size_t p (uncompressed_size fi)))).


(** The number of buffers a log leaves allocated: successful allocations
    less the releases of a buffer. *)
Fixpoint live_buffers (log : list Event) : Z :=
  match log with
  | [] => 0
  | E_Alloc _ true :: rest => live_buffers rest + 1
  | E_Free true :: rest => live_buffers rest - 1
  | _ :: rest => live_buffers rest
  end.

(** An archive with one entry that reports the largest 32-bit size. *)
Definition one_huge : ZipFile := open_archive [(tstr "huge.bin", 4294967295)].

(** An archive with one entry of five bytes. *)
Definition one_small : ZipFile := open_archive [(tstr "dir/file.bin", 5)].


(** An archive with one entry whose raw name has 300 characters. *)
Definition long_name : cstring := repeat 97 300.

Definition one_long : unzFile := archive_of [(long_name, 5)].

(** The names a log passes to [unzLocateFile], in order. *)
Fixpoint located (log : list Event) : list cstring :=
  match log with
  | [] => []
  | E_unzLocateFile name :: rest => name :: located rest
  | _ :: rest => located rest
  end.

(** Answers of a codec that rejects every cached position, so that every
    read goes through the search by name. *)
Definition answers_no_pos (bytes : list Z) : Answers :=
  {| ans_GoToFilePos64 := fun _ => -1;
     ans_LocateFile := fun _ => UNZ_OK;
     ans_OpenCurrentFile := UNZ_OK;
     ans_Alloc := fun _ => true;
     ans_ReadCurrentFile := fun _ => (Z.of_nat (List.length bytes), bytes);
     ans_CloseCurrentFile := UNZ_OK;
     ans_GetGlobalComment := fun _ => (0, []);
     ans_WriteAll := fun _ _ => true |}.


(** The archive of the scenario of the specification: one entry named
    "Report.TXT", UTF-8 flag unset. *)
Definition one_report : ZipFile := open_archive [(tstr "Report.TXT", 5)].

(** Answers on which every call succeeds, except that the read returns the
    value [r] and delivers [bytes]. *)
Definition answers_read (r : Z) (bytes : list Z) : Answers :=
  {| ans_GoToFilePos64 := fun _ => UNZ_OK;
     ans_LocateFile := fun _ => UNZ_OK;
     ans_OpenCurrentFile := UNZ_OK;
     ans_Alloc := fun _ => true;
     ans_ReadCurrentFile := fun _ => (r, bytes);
     ans_CloseCurrentFile := UNZ_OK;
     ans_GetGlobalComment := fun _ => (0, []);
     ans_WriteAll := fun _ _ => true |}.

Definition Z_DATA_ERROR : Z := -3.

(** An archive with one entry that reports a size of 2^32 - 3 bytes. *)
Definition one_wrapping : ZipFile := open_archive [(tstr "w.bin", 4294967293)].


(** ** The rest of the archive writer *)

(** Modelled from the spec: [str::StartsWith] (StrUtil): whether [txt] is a
    prefix of [s], the characters compared as they are. *)
Fixpoint StartsWith (s txt : tstring) : bool :=
  match txt, s with
  | [], _ => true
  | t :: txt', c :: s' => (c =? t) && StartsWith s' txt'
  | _ :: _, [] => false
  end.

(** [AddFileFromDir(filePath, dir)]: the name in the archive is what
    follows [dir] in [filePath], less one leading separator. At the end of
    the string the character tested is the terminator, which is no
    separator. *)
Definition AddFileFromDir `{PathOps} (d : ZipCreator) (filePath dir : tstring)
    : bool * ZipCreator :=
  if negb (StartsWith filePath dir) then (false, d)
  else
    let nameInZip := skipn (List.length dir) filePath in
    let nameInZip := match nameInZip with
                     | c :: rest => if IsSep c then rest else nameInZip
                     | [] => nameInZip
                     end in
    AddFile d filePath (Some nameInZip).

(** The calls a client makes on a [ZipCreator] before it saves. *)
Inductive AddOp :=
| OpAddFile (filePath : tstring) (nameInZip : option tstring)
| OpAddFileFromDir (filePath dir : tstring).

Definition apply_op `{PathOps} (d : ZipCreator) (op : AddOp) : bool * ZipCreator :=
  match op with
  | OpAddFile filePath nameInZip => AddFile d filePath nameInZip
  | OpAddFileFromDir filePath dir => AddFileFromDir d filePath dir
  end.

(** The list after a sequence of calls, whatever each of them returned. *)
Definition apply_ops `{PathOps} (d : ZipCreator) (ops : list AddOp) : ZipCreator :=
  fold_left (fun d op => snd (apply_op d op)) ops d.

(** The number of calls of a sequence that return [true]. *)
Fixpoint count_added `{PathOps} (d : ZipCreator) (ops : list AddOp) : nat :=
  match ops with
  | [] => O
  | op :: rest =>
      let '(ok, d') := apply_op d op in
      ((if ok then 1 else 0) + count_added d' rest)%nat
  end.

Definition ZIP_OK : Z := 0.

(** What the host and the writing half of the codec answer during one
    [SaveAs]; the answers given inside the loop may depend on the turn. *)
Record ZipAnswers := {
  zans_ToUtf8 : tstring -> cstring;                 (* str::conv::ToUtf8 *)
  zans_zipOpen : tstring -> bool;                   (* zipOpen2_64: non-NULL *)
  zans_ReadAll : Z -> tstring -> option (list Z);   (* file::ReadAll *)
  zans_OpenNewFileInZip : Z -> cstring -> Z;        (* zipOpenNewFileInZip64 *)
  zans_WriteInFileInZip : Z -> list Z -> Z;         (* zipWriteInFileInZip *)
  zans_CloseFileInZip : Z -> Z;                     (* zipCloseFileInZip *)
  zans_zipClose : Z                                 (* zipClose *)
}.

Inductive ZipEvent :=
| Z_zipOpen (path : tstring)
| Z_ReadAll (path : tstring)
| Z_OpenNewFileInZip (name : cstring)
| Z_WriteInFileInZip (data : list Z)
| Z_CloseFileInZip
| Z_zipClose.

(** The loop of [SaveAs], from turn [i] on, with [todo] turns to go. It
    yields the value of [result] at the label [Exit] and the calls made. *)
Fixpoint SaveAs_loop (w : ZipAnswers) (d : ZipCreator) (todo : nat) (i : Z)
    (log : list ZipEvent) : res (bool * list ZipEvent) :=
  match todo with
  | O => Ret (true, log)
  | S todo' =>
      match At d (2 * i), At d (2 * i + 1) with
      | Some fileName, Some nameInZip =>
          let nameInZipUtf := zans_ToUtf8 w nameInZip in
          let log := log ++ [Z_ReadAll fileName] in
          match zans_ReadAll w i fileName with
          | None => Ret (false, log)
          | Some fileData =>
              let log := log ++ [Z_OpenNewFileInZip nameInZipUtf] in
              if negb (zans_OpenNewFileInZip w i nameInZipUtf =? ZIP_OK)
              then Ret (false, log)
              else
                let log := log ++ [Z_WriteInFileInZip fileData] in
                if negb (zans_WriteInFileInZip w i fileData =? ZIP_OK)
                then Ret (false, log)
                else
                  let log := log ++ [Z_CloseFileInZip] in
                  if negb (zans_CloseFileInZip w i =? ZIP_OK)
                  then Ret (false, log)
                  else SaveAs_loop w d todo' (i + 1) log
          end
      | _, _ => Fault
      end
  end.

(** [SaveAs(zipFilePath)] *)
Definition SaveAs (w : ZipAnswers) (d : ZipCreator) (zipFilePath : tstring)
    : res (bool * list ZipEvent) :=
  if Count d =? 0 then Ret (false, [])
  else
    let log := [Z_zipOpen zipFilePath] in
    if negb (zans_zipOpen w zipFilePath) then Ret (false, log)
    else
      let fileCount := Count d / 2 in
      match SaveAs_loop w d (Z.to_nat fileCount) 0 log with
      | Ret (result, log) =>
          let log := log ++ [Z_zipClose] in
          Ret (if negb (zans_zipClose w =? ZIP_OK) then false else result, log)
      | Fault => Fault
      | OutOfFuel => OutOfFuel
      end.

(** The list that holds the given (path, name) pairs, in order. *)
Fixpoint pairs_list (pairs : list (tstring * tstring)) : ZipCreator :=
  match pairs with
  | [] => []
  | (path, name) :: rest => path :: name :: pairs_list rest
  end.

(** The calls of the turns that write the given pairs in full; [data] is
    what was read for each pair. *)
Fixpoint full_turns (w : ZipAnswers)
    (pairs : list (tstring * tstring * list Z)) : list ZipEvent :=
  match pairs with
  | [] => []
  | (path, name, data) :: rest =>
      [Z_ReadAll path; Z_OpenNewFileInZip (zans_ToUtf8 w name);
       Z_WriteInFileInZip data; Z_CloseFileInZip] ++ full_turns w rest
  end.

(** Whether every step of turn [i] succeeds on the pair (path, name). *)
Definition turn_ok (w : ZipAnswers) (i : Z) (path name : tstring) : bool :=
  match zans_ReadAll w i path with
  | None => false
  | Some data =>
      (zans_OpenNewFileInZip w i (zans_ToUtf8 w name) =? ZIP_OK)
      && (zans_WriteInFileInZip w i data =? ZIP_OK)
      && (zans_CloseFileInZip w i =? ZIP_OK)
  end.

Definition is_zipClose (e : ZipEvent) : bool :=
  match e with Z_zipClose => true | _ => false end.

Definition is_CloseFileInZip (e : ZipEvent) : bool :=
  match e with Z_CloseFileInZip => true | _ => false end.

Definition is_ReadAll (e : ZipEvent) : bool :=
  match e with Z_ReadAll _ => true | _ => false end.

(** A file system on which every file exists and every read delivers the
    bytes [1; 2; 3], and a codec on which every call succeeds. *)
Definition zip_answers_ok : ZipAnswers :=
  {| zans_ToUtf8 := fun s => s;
     zans_zipOpen := fun _ => true;
     zans_ReadAll := fun _ _ => Some [1; 2; 3];
     zans_OpenNewFileInZip := fun _ _ => ZIP_OK;
     zans_WriteInFileInZip := fun _ _ => ZIP_OK;
     zans_CloseFileInZip := fun _ => ZIP_OK;
     zans_zipClose := ZIP_OK |}.

(** The same, except that the write of turn 1 fails. *)
Definition zip_answers_write_fails : ZipAnswers :=
  {| zans_ToUtf8 := fun s => s;
     zans_zipOpen := fun _ => true;
     zans_ReadAll := fun _ _ => Some [1; 2; 3];
     zans_OpenNewFileInZip := fun _ _ => ZIP_OK;
     zans_WriteInFileInZip := fun i _ => if i =? 1 then -1 else ZIP_OK;
     zans_CloseFileInZip := fun _ => ZIP_OK;
     zans_zipClose := ZIP_OK |}.


(** What [AddFileFromDir] makes of the part of the path that follows the
    directory: one leading separator is dropped. *)
Definition strip_sep (rest : tstring) : tstring :=
  match rest with
  | c :: r => if IsSep c then r else rest
  | [] => []
  end.


(** Whether every step of turn [j] of [SaveAs] succeeds on the list [d]. *)
Definition turn_ok_at (w : ZipAnswers) (d : ZipCreator) (j : Z) : bool :=
  match At d (2 * j), At d (2 * j + 1) with
  | Some path, Some name => turn_ok w j path name
  | _, _ => false
  end.

(** The number of events of a log that satisfy [f]. *)
Definition zcount (f : ZipEvent -> bool) (log : list ZipEvent) : Z :=
  Count (filter f log).

(** The (path, name) pairs of a list of (path, name, data) triples. *)
Definition pairs_of (triples : list (tstring * tstring * list Z))
    : list (tstring * tstring) :=
  map fst triples.


(** Three pending files, as pairs and with the data read for each. *)
Definition three_files : list (tstring * tstring * list Z) :=
  [(tstr "C:\a.txt", tstr "a.txt", [1; 2; 3]);
   (tstr "C:\b.txt", tstr "b.txt", [1; 2; 3]);
   (tstr "C:\c.txt", tstr "c.txt", [1; 2; 3])].


(** ** Descriptions used in the further properties *)

(** A character of a name (a code unit other than the terminator) that is
    no upper-case ASCII letter and to which 256 can be added within the 16
    bits of a code unit. *)
Definition no_upper (c : Z) : bool :=
  (1 <=? c) && negb ((65 <=? c) && (c <=? 90)) && (c + 256 <=? 0xFFFF).

(** The positions the directory cursor visits when nothing limits the
    number of turns: it stops after the first position at which
    [unzGoToNextFile] answers an error. *)
Fixpoint walk (cursor : list DirEntry) : list DirEntry :=
  match cursor with
  | [] => []
  | e :: rest => e :: (if next_err e =? UNZ_OK then walk rest else [])
  end.

Definition info_ok (e : DirEntry) : bool := info_err e =? UNZ_OK.

(** The locator stored for an entry. *)
Definition stored_pos (e : DirEntry) : unz64_file_pos :=
  if pos_err e =? UNZ_OK then pos e
  else set_num_of_file (pos e) INVALID_ZIP_FILE_POS.

(** The entries of an archive that end up in the index. *)
Definition indexed (u : unzFile) : list DirEntry :=
  filter info_ok (firstn (Z.to_nat (number_entry u)) (walk (directory u))).

Definition with_directory (u : unzFile) (dir : list DirEntry) : unzFile :=
  {| ginfo_err := ginfo_err u; number_entry := number_entry u;
     size_comment := size_comment u; directory := dir |}.

(** The number of events of a log that satisfy [f]. *)
Definition ecount (f : Event -> bool) (log : list Event) : Z :=
  Count (filter f log).

Definition is_Open (e : Event) : bool :=
  match e with E_unzOpenCurrentFile => true | _ => false end.

Definition is_Close (e : Event) : bool :=
  match e with E_unzCloseCurrentFile => true | _ => false end.

Definition is_GoToFilePos (e : Event) : bool :=
  match e with E_unzGoToFilePos64 _ => true | _ => false end.

Definition is_WriteAll (e : Event) : bool :=
  match e with E_WriteAll _ _ => true | _ => false end.

Definition is_GetGlobalComment (e : Event) : bool :=
  match e with E_unzGetGlobalComment _ => true | _ => false end.

(** A time conversion used in examples: the two halves are kept as they
    are, and local time is universal time. *)
Definition plain_WinTime : WinTime :=
  {| DosDateTimeToFileTime :=
       fun date time => {| dwLowDateTime := time; dwHighDateTime := date |};
     LocalFileTimeToFileTime := fun ft => ft |}.

(** An archive of three entries in which the step past the second entry
    fails. *)
Definition broken_after_two : unzFile :=
  {| ginfo_err := UNZ_OK; number_entry := 3; size_comment := 0;
     directory :=
       [ {| raw_name := tstr "a"; info := plain_info 1; info_err := UNZ_OK;
            pos := {| pos_in_zip_directory := 0; num_of_file := 0 |};
            pos_err := UNZ_OK; next_err := UNZ_OK |};
         {| raw_name := tstr "b"; info := plain_info 2; info_err := UNZ_OK;
            pos := {| pos_in_zip_directory := 0; num_of_file := 1 |};
            pos_err := UNZ_OK; next_err := -1 |};
         {| raw_name := tstr "c"; info := plain_info 3; info_err := UNZ_OK;
            pos := {| pos_in_zip_directory := 0; num_of_file := 2 |};
            pos_err := UNZ_OK; next_err := UNZ_END_OF_LIST_OF_FILE |} ] |}.

(** An opened archive whose global information cannot be read. *)
Definition no_ginfo : unzFile :=
  {| ginfo_err := -1; number_entry := 1; size_comment := 7;
     directory := directory_of 0 [(tstr "a", 1)] |}.

(** An archive with an entry whose date is 2012-06-15 and whose time is
    12:30:10, packed the DOS way. *)
Definition dated_info : unz_file_info64 :=
  {| compressed_size := 5; uncompressed_size := 5;
     dosDate := 16591 * 65536 + 25541; flag := 0; compression_method := 0 |}.

Definition one_dated : ZipFile :=
  {| uf := Some (archive_of [(tstr "a", 5)]);
     filenames := [tstr "a"]; filenameHashes := [GetQuickHashI (tstr "a")];
     fileinfo := [dated_info];
     filepos := [{| pos_in_zip_directory := 0; num_of_file := 0 |}];
     commentLen := 0 |}.

(** An archive of two entries with distinct hashes. *)
Definition two_distinct : ZipFile :=
  open_archive [(tstr "Report.TXT", 5); (tstr "data.bin", 7)].

(** An archive whose comment has four bytes. *)
Definition commented : ZipFile :=
  @ZipFile_new ascii_BufOps
    (Some {| ginfo_err := UNZ_OK; number_entry := 0; size_comment := 4;
             directory := [] |}).

Definition answers_comment (read : Z) (bytes : list Z) : Answers :=
  {| ans_GoToFilePos64 := fun _ => UNZ_OK;
     ans_LocateFile := fun _ => UNZ_OK;
     ans_OpenCurrentFile := UNZ_OK;
     ans_Alloc := fun _ => true;
     ans_ReadCurrentFile := fun _ => (0, []);
     ans_CloseCurrentFile := UNZ_OK;
     ans_GetGlobalComment := fun _ => (read, bytes);
     ans_WriteAll := fun _ _ => true |}.

(** An archive with one entry that reports a size of 2^32 bytes. *)
Definition one_4GiB : ZipFile := open_archive [(tstr "big.iso", 4294967296)].


(** A directory position that answers nothing useful, for defaults. *)
Definition nil_entry : DirEntry :=
  {| raw_name := []; info := plain_info 0; info_err := 0;
     pos := {| pos_in_zip_directory := 0; num_of_file := 0 |};
     pos_err := 0; next_err := 0 |}.


(** The answers under which [GetFileData] reads an entry of [u] bytes in
    full through its cached locator: the codec accepts the locator, opens
    the entry, delivers [u] bytes and closes the entry without error, and
    the allocator provides the buffer. *)
Definition full_read_answers (w : Answers) (fpos : unz64_file_pos) (u : Z)
    (bytes : list Z) : Prop :=
  num_of_file fpos <> INVALID_ZIP_FILE_POS /\
  ans_GoToFilePos64 w fpos = UNZ_OK /\
  ans_OpenCurrentFile w = UNZ_OK /\
  ans_Alloc w (u + sizeof_WCHAR) = true /\
  ans_ReadCurrentFile w u = (u, bytes) /\
  Count bytes = u /\
  ans_CloseCurrentFile w = UNZ_OK.


(** * Properties *)

(** ** Quick hash *)

Lemma fold_left_hash_step (s : tstring) (crc : Z) :
  fold_left hash_step s crc = fold_left crc_mix (map fold_byte s) crc.
Proof.
  revert crc. induction s as [|c s IH]; intro crc; simpl.
  - reflexivity.
  - apply IH.
Qed.

Lemma EqI_iff (a b : tstring) :
  EqI a b = true <-> map totlower a = map totlower b.
Proof.
  revert b. induction a as [|x a IH]; intros [|y b]; simpl;
    try (split; [discriminate | discriminate]).
  - split; reflexivity.
  - rewrite andb_true_iff, Z.eqb_eq, IH. split.
    + intros [-> ->]. reflexivity.
    + intro E. injection E as E1 E2. split; assumption.
Qed.

Lemma EqI_fold_byte (a b : tstring) :
  EqI a b = true -> map fold_byte a = map fold_byte b.
Proof.
  intro E. apply EqI_iff in E.
  assert (F : forall s, map fold_byte s = map (fun c => Z.land c 0xFF) (map totlower s)).
  { intro s. rewrite map_map. reflexivity. }
  rewrite !F, E. reflexivity.
Qed.

Lemma lxor_below_2_32 (a b : Z) :
  0 <= a < 2 ^ 32 -> 0 <= b < 2 ^ 32 -> 0 <= Z.lxor a b < 2 ^ 32.
Proof.
  intros [Ha Ha'] [Hb Hb'].
  assert (N : 0 <= Z.lxor a b) by (apply Z.lxor_nonneg; tauto).
  split; [exact N|].
  destruct (Z.eq_dec (Z.lxor a b) 0) as [-> | NZ]; [reflexivity|].
  apply Z.log2_lt_pow2; [lia|].
  pose proof (Z.log2_lxor a b Ha Hb) as L.
  assert (La : Z.log2 a < 32).
  { destruct (Z.eq_dec a 0) as [-> | ?]; [reflexivity|].
    apply Z.log2_lt_pow2; lia. }
  assert (Lb : Z.log2 b < 32).
  { destruct (Z.eq_dec b 0) as [-> | ?]; [reflexivity|].
    apply Z.log2_lt_pow2; lia. }
  lia.
Qed.

Lemma u32_range (x : Z) : 0 <= u32 x < 2 ^ 32.
Proof. unfold u32. apply Z.mod_pos_bound. reflexivity. Qed.

Lemma crc_bit_range (bits : Z) : 0 <= crc_bit bits < 2 ^ 32.
Proof.
  unfold crc_bit. destruct (Z.land bits 0x80000000 =? 0).
  - apply u32_range.
  - apply lxor_below_2_32; [apply u32_range | lia].
Qed.

Lemma crc_mix_range (crc b : Z) : 0 <= crc_mix crc b < 2 ^ 32.
Proof.
  unfold crc_mix. apply lxor_below_2_32; [apply u32_range|].
  change 8%nat with (S 7). rewrite Nat.iter_succ. apply crc_bit_range.
Qed.

Lemma fold_left_hash_range (s : tstring) (crc : Z) :
  0 <= crc < 2 ^ 32 -> 0 <= fold_left hash_step s crc < 2 ^ 32.
Proof.
  revert crc. induction s as [|c s IH]; intros crc R; simpl.
  - exact R.
  - apply IH. exact (crc_mix_range crc (fold_byte c)).
Qed.

Lemma GetQuickHashI_range (s : tstring) : 0 <= GetQuickHashI s < 2 ^ 32.
Proof. apply fold_left_hash_range. lia. Qed.

Lemma GetQuickHashI_bytes (a b : tstring) :
  map fold_byte a = map fold_byte b -> GetQuickHashI a = GetQuickHashI b.
Proof.
  intro E. unfold GetQuickHashI.
  transitivity (fold_left crc_mix (map fold_byte a) 0).
  - exact (fold_left_hash_step a 0).
  - transitivity (fold_left crc_mix (map fold_byte b) 0).
    + exact (f_equal (fun l => fold_left crc_mix l 0) E).
    + symmetry. exact (fold_left_hash_step b 0).
Qed.

(** C5. Two file names that differ only in the case of their characters
    (they are equal under the case-insensitive comparison) have the same
    quick hash: each character is lower-cased before it is mixed in. *)
Theorem GetQuickHashI_case_insensitive (a b : tstring) :
  EqI a b = true -> GetQuickHashI a = GetQuickHashI b.
Proof.
  intro E. apply GetQuickHashI_bytes, EqI_fold_byte, E.
Qed.

Lemma GetQuickHashI_case_insensitive_witness :
  EqI (tstr "Report.TXT") (tstr "report.txt") = true /\
  GetQuickHashI (tstr "Report.TXT") = GetQuickHashI (tstr "report.txt").
Proof.
  split; [reflexivity|].
  apply (GetQuickHashI_case_insensitive (tstr "Report.TXT") (tstr "report.txt")).
  reflexivity.
Defined.

(** C6, as stated, fails: the hash of "ab" is not the hash of its
    reordering "ba". *)
Lemma GetQuickHashI_order_dependent :
  Permutation (tstr "ab") (tstr "ba") /\
  GetQuickHashI (tstr "ab") = 0x16db664f /\
  GetQuickHashI (tstr "ba") = 0x69731f45 /\
  GetQuickHashI (tstr "ab") <> GetQuickHashI (tstr "ba").
Proof.
  split; [apply perm_swap|].
  split; [vm_compute; reflexivity|].
  split; [vm_compute; reflexivity|].
  vm_compute. discriminate.
Qed.

(** C6, amended. The hash is a 32-bit value fixed by the sequence, in
    order, of the case-folded low bytes of the characters: a reordering of
    a name that leaves that sequence as it was (it exchanges characters
    that fold to the same byte) leaves the hash unchanged. *)
Theorem GetQuickHashI_reorder_same_bytes (s t : tstring) :
  Permutation s t ->
  map fold_byte s = map fold_byte t ->
  GetQuickHashI s = GetQuickHashI t /\ 0 <= GetQuickHashI s < 2 ^ 32.
Proof.
  intros _ E. split.
  - apply GetQuickHashI_bytes, E.
  - apply GetQuickHashI_range.
Qed.

Lemma GetQuickHashI_reorder_same_bytes_witness :
  GetQuickHashI (tstr "aAb") = GetQuickHashI (tstr "Aab") /\
  0 <= GetQuickHashI (tstr "aAb") < 2 ^ 32.
Proof.
  apply (GetQuickHashI_reorder_same_bytes (tstr "aAb") (tstr "Aab")).
  - apply perm_swap.
  - reflexivity.
Defined.

(** ** [Vec::Find] *)

Lemma Find_at_ge (els : list Z) (el s i0 r : Z) :
  0 <= i0 -> Find_at els el s i0 = r -> r <> -1 -> i0 <= r /\ s <= r.
Proof.
  revert i0. induction els as [|x els IH]; intros i0 P F N; simpl in F.
  - congruence.
  - destruct ((s <=? i0) && (x =? el)) eqn:T.
    + apply andb_true_iff in T. destruct T as [T _]. apply Z.leb_le in T. lia.
    + destruct (IH (i0 + 1) ltac:(lia) F N). lia.
Qed.

(** Searching again from a position [Find] returned gives that position. *)
Lemma Find_at_fix (els : list Z) (el s i0 r : Z) :
  0 <= i0 -> Find_at els el s i0 = r -> r <> -1 -> Find_at els el r i0 = r.
Proof.
  revert i0. induction els as [|x els IH]; intros i0 P F N; simpl in F |- *.
  - congruence.
  - destruct ((s <=? i0) && (x =? el)) eqn:T.
    + subst r. apply andb_true_iff in T. destruct T as [_ T].
      rewrite T, Z.leb_refl. reflexivity.
    + destruct (Find_at_ge els el s (i0 + 1) r ltac:(lia) F N) as [G _].
      replace (r <=? i0) with false by (symmetry; apply Z.leb_gt; lia).
      simpl. apply IH; [lia | exact F | exact N].
Qed.

Lemma Find_at_hit (els : list Z) (el s i0 r : Z) :
  0 <= i0 -> Find_at els el s i0 = r -> r <> -1 ->
  nth_error els (Z.to_nat (r - i0)) = Some el.
Proof.
  revert i0. induction els as [|x els IH]; intros i0 P F N; simpl in F.
  - congruence.
  - destruct ((s <=? i0) && (x =? el)) eqn:T.
    + subst r. apply andb_true_iff in T. destruct T as [_ T].
      apply Z.eqb_eq in T. subst x. rewrite Z.sub_diag. reflexivity.
    + destruct (Find_at_ge els el s (i0 + 1) r ltac:(lia) F N) as [G _].
      replace (Z.to_nat (r - i0)) with (S (Z.to_nat (r - (i0 + 1)))) by lia.
      simpl. apply IH; [lia | exact F | exact N].
Qed.

(** No element equal to [el] lies between the start and the position
    returned; when -1 is returned, none lies after the start at all. *)
Lemma Find_at_miss (els : list Z) (el s i0 r k : Z) :
  0 <= i0 -> Find_at els el s i0 = r ->
  i0 <= k -> s <= k -> (r = -1 \/ k < r) ->
  nth_error els (Z.to_nat (k - i0)) <> Some el.
Proof.
  revert i0. induction els as [|x els IH]; intros i0 P F K1 K2 B; simpl in F.
  - destruct (Z.to_nat (k - i0)); discriminate.
  - destruct ((s <=? i0) && (x =? el)) eqn:T.
    + subst r. lia.
    + destruct (Z.eq_dec k i0) as [-> | NE].
      * rewrite Z.sub_diag. simpl. intro E. injection E as ->.
        rewrite Z.eqb_refl, andb_true_r in T. apply Z.leb_gt in T. lia.
      * replace (Z.to_nat (k - i0)) with (S (Z.to_nat (k - (i0 + 1)))) by lia.
        simpl. apply IH; [lia | exact F | lia | lia | exact B].
Qed.

Lemma Find_hit (els : list Z) (el r : Z) :
  Find els el 0 = r -> r <> -1 -> 0 <= r /\ At els r = Some el.
Proof.
  intros F N. unfold Find in F.
  destruct (Find_at_ge els el 0 0 r ltac:(lia) F N) as [G _].
  split; [exact G|]. unfold At.
  replace (r <? 0) with false by (symmetry; apply Z.ltb_ge; lia).
  pose proof (Find_at_hit els el 0 0 r ltac:(lia) F N) as E.
  rewrite Z.sub_0_r in E. exact E.
Qed.

Lemma Find_miss (els : list Z) (el r k : Z) :
  Find els el 0 = r -> 0 <= k -> (r = -1 \/ k < r) -> At els k <> Some el.
Proof.
  intros F K B. unfold At.
  replace (k <? 0) with false by (symmetry; apply Z.ltb_ge; lia).
  pose proof (Find_at_miss els el 0 0 r k ltac:(lia) F K K B) as E.
  rewrite Z.sub_0_r in E. exact E.
Qed.

Lemma Find_fix (els : list Z) (el r : Z) :
  Find els el 0 = r -> r <> -1 -> Find els el r = r.
Proof. intros F N. apply (Find_at_fix els el 0 0 r); [lia | exact F | exact N]. Qed.

(** The start position belongs to the range searched: the lookup starts
    at 0 and finds the entry at index 0 of the scenario; a search that
    began after its start position would miss it. *)
Example Find_start_included :
  let h := GetQuickHashI (tstr "report.txt") in
  filenameHashes one_report = [h] /\
  Find (filenameHashes one_report) h 0 = 0 /\
  Find (filenameHashes one_report) h 1 = -1.
Proof. repeat split; vm_compute; reflexivity. Qed.

(** ** [Vec::At] *)

Lemma At_in_range {A : Type} (els : list A) (i : Z) :
  0 <= i < Count els -> exists x, At els i = Some x.
Proof.
  intros [L U]. unfold At, Count in *.
  replace (i <? 0) with false by (symmetry; apply Z.ltb_ge; exact L).
  destruct (nth_error els (Z.to_nat i)) as [x|] eqn:E.
  - exists x. reflexivity.
  - apply nth_error_None in E. lia.
Qed.

(** ** The invariant of the handle *)

Lemma append_entry_wf `{BufOps} (e : DirEntry) (zf : ZipFile) :
  wf zf -> wf (append_entry e zf).
Proof.
  intros (L1 & L2 & L3 & W). unfold wf, append_entry. simpl.
  rewrite !length_app, L1, L2, L3, W, map_app. simpl. tauto.
Qed.

Lemma ExtractFilenames_loop_wf `{BufOps} (todo : nat) (cursor : list DirEntry)
    (zf : ZipFile) :
  wf zf -> wf (ExtractFilenames_loop todo cursor zf).
Proof.
  revert cursor zf. induction todo as [|todo IH]; intros [|e cursor] zf W;
    simpl; try exact W.
  assert (W' : wf (if info_err e =? UNZ_OK then append_entry e zf else zf)).
  { destruct (info_err e =? UNZ_OK); [apply append_entry_wf|]; exact W. }
  destruct (next_err e =? UNZ_OK); [apply IH|]; exact W'.
Qed.

Lemma ZipFile_new_wf `{BufOps} (u : option unzFile) : wf (ZipFile_new u).
Proof.
  assert (W0 : forall v, wf {| uf := v; filenames := []; filenameHashes := [];
                               fileinfo := []; filepos := []; commentLen := 0 |}).
  { intro v. unfold wf. simpl. tauto. }
  unfold ZipFile_new. destruct u as [a|]; [|apply W0].
  unfold ExtractFilenames. simpl.
  destruct (negb (ginfo_err a =? UNZ_OK)); [apply W0|].
  pose proof (ExtractFilenames_loop_wf (Z.to_nat (number_entry a)) (directory a)
                _ (W0 (Some a))) as W.
  unfold wf, set_commentLen in *. simpl. exact W.
Qed.

(** ** [GetFileIndex] *)

(** Once the first entry with the hash of the name fails the comparison,
    every turn of the loop finds that entry again. *)
Lemma GetFileIndex_loop_stuck (p : Platform) (zf : ZipFile)
    (filename name : tstring) (hash j : Z) :
  Find (filenameHashes zf) hash 0 = j -> j <> -1 ->
  At (filenames zf) j = Some name ->
  EqI filename name = false ->
  forall (fuel : nat) (i : Z), i = 0 \/ i = j ->
  GetFileIndex_loop p fuel zf filename hash i = OutOfFuel.
Proof.
  intros F N A E fuel. induction fuel as [|fuel IH]; intros i Hi; simpl.
  - reflexivity.
  - assert (F' : Find (filenameHashes zf) hash i = j).
    { destruct Hi as [-> | ->]; [exact F | apply Find_fix; assumption]. }
    rewrite F'.
    replace (j =? -1) with false by (symmetry; apply Z.eqb_neq; exact N).
    rewrite A, E. apply IH. right. reflexivity.
Qed.

(** What [GetFileIndex] returns when it returns: the answer of the first
    turn of its loop. *)
Lemma GetFileIndex_returns (p : Platform) (fuel : nat) (zf : ZipFile)
    (filename : tstring) (r : Z) :
  GetFileIndex p fuel zf filename = Ret r ->
  let j := Find (filenameHashes zf) (GetQuickHashI filename) 0 in
  (j = -1 /\ r = NOT_FOUND p) \/
  (j <> -1 /\ r = j /\
   exists name, At (filenames zf) j = Some name /\ EqI filename name = true).
Proof.
  unfold GetFileIndex. destruct fuel as [|fuel]; simpl; [discriminate|].
  destruct (Find (filenameHashes zf) (GetQuickHashI filename) 0 =? -1) eqn:T.
  - intro E. injection E as <-. apply Z.eqb_eq in T. left. split; [exact T | reflexivity].
  - apply Z.eqb_neq in T.
    destruct (At (filenames zf) _) as [name|] eqn:A; [|discriminate].
    destruct (EqI filename name) eqn:E.
    + intro R. injection R as <-. right. split; [exact T|]. split; [reflexivity|].
      exists name. split; [reflexivity | exact E].
    + rewrite (GetFileIndex_loop_stuck p zf filename name _ _ eq_refl T A E);
        [discriminate | right; reflexivity].
Qed.

Lemma At_map {A B : Type} (f : A -> B) (els : list A) (i : Z) :
  At (map f els) i = option_map f (At els i).
Proof.
  unfold At. destruct (i <? 0); [reflexivity|]. apply nth_error_map.
Qed.

(** On a handle that keeps its invariant, a returned index is the lowest
    one whose stored name equals the name looked up, and [NOT_FOUND] is
    returned only when no stored name does. *)
Lemma GetFileIndex_sound (p : Platform) (fuel : nat) (zf : ZipFile)
    (filename : tstring) (r : Z) :
  wf zf ->
  GetFileIndex p fuel zf filename = Ret r ->
  (r = NOT_FOUND p /\
   forall k name, At (filenames zf) k = Some name -> EqI filename name = false)
  \/
  (0 <= r /\
   (exists name, At (filenames zf) r = Some name /\ EqI filename name = true) /\
   forall k name, 0 <= k < r -> At (filenames zf) k = Some name ->
                  EqI filename name = false).
Proof.
  intros (_ & _ & _ & W) R.
  assert (NoHit : forall k name bound,
             Find (filenameHashes zf) (GetQuickHashI filename) 0 = bound ->
             (bound = -1 \/ k < bound) ->
             At (filenames zf) k = Some name -> EqI filename name = false).
  { intros k name bound F B A.
    destruct (EqI filename name) eqn:E; [|reflexivity]. exfalso.
    assert (K : 0 <= k).
    { unfold At in A. destruct (k <? 0) eqn:L; [discriminate|].
      apply Z.ltb_ge in L. exact L. }
    apply (Find_miss _ _ _ k F K B).
    rewrite W, At_map, A. simpl.
    rewrite (GetQuickHashI_bytes filename name); [reflexivity|].
    apply EqI_fold_byte, E. }
  apply GetFileIndex_returns in R. simpl in R.
  destruct R as [[J ->] | (J & -> & name & A & E)].
  - left. split; [reflexivity|]. intros k name A.
    apply (NoHit k name _ eq_refl); [left; exact J | exact A].
  - right. destruct (Find_hit _ _ _ eq_refl J) as [G _].
    split; [exact G|]. split; [exists name; tauto|].
    intros k name' K A'. apply (NoHit k name' _ eq_refl); [right; lia | exact A'].
Qed.

(** The lookup returns within one turn of its loop when the first stored
    name with the hash of the name, if there is one, is equal to it. *)
Lemma GetFileIndex_returns_without_collision (p : Platform) (zf : ZipFile)
    (filename : tstring) :
  wf zf ->
  (forall name,
     At (filenames zf)
        (Find (filenameHashes zf) (GetQuickHashI filename) 0) = Some name ->
     EqI filename name = true) ->
  exists r, forall fuel, GetFileIndex p (S fuel) zf filename = Ret r.
Proof.
  intros (L1 & _ & _ & _) NC. unfold GetFileIndex. simpl.
  destruct (Find (filenameHashes zf) (GetQuickHashI filename) 0 =? -1) eqn:T.
  - exists (NOT_FOUND p). reflexivity.
  - apply Z.eqb_neq in T.
    destruct (Find_hit _ _ _ eq_refl T) as [G A].
    destruct (At_in_range (filenames zf)
                (Find (filenameHashes zf) (GetQuickHashI filename) 0))
      as [name E].
    { split; [exact G|]. unfold Count. rewrite <- L1.
      unfold At in A.
      destruct (_ <? 0); [discriminate|].
      assert (N : nth_error (filenameHashes zf)
                    (Z.to_nat (Find (filenameHashes zf)
                                 (GetQuickHashI filename) 0)) <> None)
        by (rewrite A; discriminate).
      apply nth_error_Some in N. lia. }
    rewrite E, (NC name E).
    exists (Find (filenameHashes zf) (GetQuickHashI filename) 0). reflexivity.
Qed.

(** The scenario of the specification: the entry "Report.TXT" is found
    under "report.txt", and "nomatch" is not found. *)
Example GetFileIndex_scenario :
  GetFileIndex Win32 1 one_report (tstr "report.txt") = Ret 0 /\
  GetFileIndex Win32 1 one_report (tstr "nomatch") = Ret (NOT_FOUND Win32) /\
  NOT_FOUND Win32 = 4294967295 /\
  NOT_FOUND Win64 = 18446744073709551615.
Proof. repeat split; vm_compute; reflexivity. Qed.

(** C1, on the code: a handle opened on an archive whose entries are
    "ojmsy" and "1.txt", two names with the same quick hash. The lowest
    index whose name equals "1.txt" is 1; the lookup of "1.txt" stops at
    index 0, where the comparison fails, and finds index 0 again on every
    further turn: it returns neither 1 nor [NOT_FOUND], whatever the number
    of turns it is given. *)
Theorem GetFileIndex_two_colliding :
  wf two_colliding /\
  filenames two_colliding = [tstr "ojmsy"; tstr "1.txt"] /\
  EqI (tstr "1.txt") (tstr "ojmsy") = false /\
  EqI (tstr "1.txt") (tstr "1.txt") = true /\
  forall (p : Platform) (fuel : nat),
    GetFileIndex p fuel two_colliding (tstr "1.txt") = OutOfFuel.
Proof.
  split; [apply ZipFile_new_wf|].
  split; [reflexivity|]. split; [reflexivity|]. split; [reflexivity|].
  intros p fuel. unfold GetFileIndex.
  apply (GetFileIndex_loop_stuck p two_colliding (tstr "1.txt") (tstr "ojmsy")
           (GetQuickHashI (tstr "1.txt")) 0).
  - vm_compute. reflexivity.
  - discriminate.
  - reflexivity.
  - reflexivity.
  - left. reflexivity.
Qed.

(** C2, on the code: when the first stored hash equal to the hash of the
    name belongs to a stored name that differs from it, the lookup does not
    return, however many turns of its loop are run: the loop does not move
    past the candidate. *)
Theorem GetFileIndex_collision_never_returns (p : Platform) (zf : ZipFile)
    (filename name : tstring) (j : Z) :
  Find (filenameHashes zf) (GetQuickHashI filename) 0 = j -> j <> -1 ->
  At (filenames zf) j = Some name ->
  EqI filename name = false ->
  forall fuel : nat, GetFileIndex p fuel zf filename = OutOfFuel.
Proof.
  intros F N A E fuel. unfold GetFileIndex.
  apply (GetFileIndex_loop_stuck p zf filename name _ j F N A E).
  left. reflexivity.
Qed.

Lemma GetFileIndex_collision_never_returns_witness :
  wf one_colliding /\
  filenames one_colliding = [tstr "ojmsy"] /\
  forall fuel : nat,
    GetFileIndex Win32 fuel one_colliding (tstr "1.txt") = OutOfFuel.
Proof.
  split; [apply ZipFile_new_wf|]. split; [reflexivity|].
  apply (GetFileIndex_collision_never_returns Win32 one_colliding
           (tstr "1.txt") (tstr "ojmsy") 0).
  - vm_compute. reflexivity.
  - discriminate.
  - reflexivity.
  - reflexivity.
Defined.

(** ** [GetFileData] *)

Lemma wf_At (zf : ZipFile) (i : Z) :
  wf zf -> 0 <= i -> (Count (filenames zf) <=? i) = false ->
  exists fpos fi name,
    At (filepos zf) i = Some fpos /\ At (fileinfo zf) i = Some fi /\
    At (filenames zf) i = Some name.
Proof.
  intros (_ & L2 & L3 & _) P C. apply Z.leb_gt in C.
  destruct (At_in_range (filepos zf) i) as [fpos E1];
    [unfold Count in *; lia|].
  destruct (At_in_range (fileinfo zf) i) as [fi E2];
    [unfold Count in *; lia|].
  destruct (At_in_range (filenames zf) i) as [name E3]; [lia|].
  exists fpos, fi, name. tauto.
Qed.

(** The guard rejects every size that does not leave room for the two
    bytes of padding in the size type, and only those. *)
Lemma overflow_check_rejects (p : Platform) (u : Z) :
  2 ^ size_bits p <= u + sizeof_WCHAR ->
  negb (to_size_t p u =? u)
  || (to_size_t p (to_size_t p u + sizeof_WCHAR) <? sizeof_WCHAR) = true.
Proof.
  intro H. unfold to_size_t, sizeof_WCHAR in *.
  assert (B : 2 <= 2 ^ size_bits p) by (destruct p; discriminate).
  set (m := 2 ^ size_bits p) in *. clearbody m.
  pose proof (Z.mod_pos_bound u m ltac:(lia)) as M.
  destruct (Z_lt_le_dec u m) as [Lt | Ge].
  - rewrite (Z.mod_small u) by lia. rewrite Z.eqb_refl. simpl.
    apply Z.ltb_lt.
    replace (u + 2) with ((u + 2 - m) + 1 * m) by lia.
    rewrite Z.mod_add by lia. rewrite Z.mod_small; lia.
  - replace (u mod m =? u) with false by (symmetry; apply Z.eqb_neq; lia).
    reflexivity.
Qed.

Lemma overflow_check_passes (p : Platform) (u : Z) :
  negb (to_size_t p u =? u)
  || (to_size_t p (to_size_t p u + sizeof_WCHAR) <? sizeof_WCHAR) = false ->
  to_size_t p u = u /\ 0 <= u /\ u + sizeof_WCHAR < 2 ^ size_bits p /\
  to_size_t p (u + sizeof_WCHAR) = u + sizeof_WCHAR.
Proof.
  intro H. apply orb_false_iff in H. destruct H as [H1 H2].
  apply negb_false_iff, Z.eqb_eq in H1. rewrite H1 in H2.
  apply Z.ltb_ge in H2. unfold to_size_t, sizeof_WCHAR in *.
  assert (B : 2 <= 2 ^ size_bits p) by (destruct p; discriminate).
  set (m := 2 ^ size_bits p) in *. clearbody m.
  pose proof (Z.mod_pos_bound u m ltac:(lia)) as M. rewrite H1 in M.
  assert (Lt : u + 2 < m).
  { destruct (Z_lt_le_dec (u + 2) m) as [? | Ge]; [assumption|].
    exfalso.
    replace (u + 2) with ((u + 2 - m) + 1 * m) in H2 by lia.
    rewrite Z.mod_add in H2 by lia. rewrite Z.mod_small in H2; lia. }
  repeat split; try lia. apply Z.mod_small. lia.
Qed.

Ltac run := unfold bind, ret, emit, at_, lift; simpl.

Ltac log_shape := rewrite <- ?app_assoc; simpl.

(** Split on the innermost condition of the run under way. *)
Ltac case_if :=
  match goal with
  | |- context [if ?c then _ else _] =>
      lazymatch c with
      | context [if _ then _ else _] => fail
      | _ => destruct c eqn:?
      end
  end.

(** Close a goal of the shape [Ret (r, log ++ ...) = Ret (r, log ++ ?)]
    together with a computed fact about the new events. *)
Ltac close_log :=
  log_shape;
  first [ eexists; split; [reflexivity | reflexivity]
        | exists []; rewrite app_nil_r; split; reflexivity ].

(** C3. When the uncompressed size an entry reports does not fit the
    platform size type together with the two bytes of terminator padding
    (the conversion or the addition would wrap), [GetFileData] returns
    [NULL] and the calls it made contain no allocation at all. *)
Theorem GetFileData_overflow_guard `{BufOps} (p : Platform) (w : Answers)
    (zf : ZipFile) (fileindex : Z) (log : list Event) :
  wf zf -> 0 <= fileindex ->
  (forall fi, At (fileinfo zf) fileindex = Some fi ->
              2 ^ size_bits p <= uncompressed_size fi + sizeof_WCHAR) ->
  exists log',
    GetFileData p w zf fileindex log = Ret (None, log ++ log') /\
    existsb is_Alloc log' = false.
Proof.
  intros W P Hov. unfold GetFileData.
  destruct (uf zf) as [a|]; [|exists []; rewrite app_nil_r; split; reflexivity].
  destruct (Count (filenames zf) <=? fileindex) eqn:C;
    [exists []; rewrite app_nil_r; split; reflexivity|].
  destruct (wf_At zf fileindex W P C) as (fpos & fi & name & E1 & E2 & E3).
  specialize (Hov fi E2). apply overflow_check_rejects in Hov.
  run. rewrite E1. run.
  repeat (rewrite ?E2, ?E3, ?Hov; run; try case_if); close_log.
Qed.

Lemma GetFileData_overflow_guard_witness :
  exists log',
    @GetFileData ascii_BufOps Win32 (answers [] UNZ_OK) one_huge 0 [] =
      Ret (None, [] ++ log') /\
    existsb is_Alloc log' = false.
Proof.
  apply (@GetFileData_overflow_guard ascii_BufOps Win32 (answers [] UNZ_OK)
           one_huge 0 []).
  - apply ZipFile_new_wf.
  - lia.
  - intros fi A. vm_compute in A. injection A as <-. vm_compute. discriminate.
Defined.

Lemma short_read_detected (p : Platform) (u r : Z) :
  0 <= r < u -> to_size_t p u = u ->
  negb (to_uint r =? to_size_t p u) = true.
Proof.
  intros R E. rewrite E. apply negb_true_iff, Z.eqb_neq. unfold to_uint.
  pose proof (Z.mod_le r (2 ^ 32) ltac:(lia) ltac:(lia)). lia.
Qed.

Lemma short_read_returns_null `{BufOps} (p : Platform) (w : Answers)
    (zf : ZipFile) (fileindex : Z) (log : list Event) :
  wf zf -> 0 <= fileindex ->
  (forall fi, At (fileinfo zf) fileindex = Some fi ->
              0 <= read_result p w fi < uncompressed_size fi) ->
  exists log',
    GetFileData p w zf fileindex log = Ret (None, log ++ log') /\
    live_buffers log' = 0.
Proof.
  intros W P Hr. unfold GetFileData.
  destruct (uf zf) as [a|]; [|close_log].
  destruct (Count (filenames zf) <=? fileindex) eqn:C; [close_log|].
  destruct (wf_At zf fileindex W P C) as (fpos & fi & name & E1 & E2 & E3).
  specialize (Hr fi E2). unfold read_result in Hr.
  destruct (ans_ReadCurrentFile w (to_uint (to_size_t p (uncompressed_size fi))))
    as [r bytes] eqn:R.
  simpl in Hr.
  destruct (negb (to_size_t p (uncompressed_size fi) =? uncompressed_size fi)
            || (to_size_t p (to_size_t p (uncompressed_size fi) + sizeof_WCHAR)
                <? sizeof_WCHAR)) eqn:G.
  - run. rewrite E1. run.
    repeat (rewrite ?E2, ?E3, ?G; run; try case_if); close_log.
  - destruct (overflow_check_passes p _ G) as (S1 & _).
    pose proof (short_read_detected p _ r Hr S1) as D.
    run. rewrite E1. run.
    repeat (rewrite ?E2, ?E3, ?G, ?R, ?D; run; try case_if); close_log.
Qed.

Lemma close_error_returns_null `{BufOps} (p : Platform) (w : Answers)
    (zf : ZipFile) (fileindex : Z) (log : list Event) :
  wf zf -> 0 <= fileindex ->
  ans_CloseCurrentFile w <> UNZ_OK ->
  exists log',
    GetFileData p w zf fileindex log = Ret (None, log ++ log') /\
    live_buffers log' = 0.
Proof.
  intros W P Hc. unfold GetFileData.
  assert (D : negb (ans_CloseCurrentFile w =? UNZ_OK) = true).
  { apply negb_true_iff, Z.eqb_neq, Hc. }
  destruct (uf zf) as [a|]; [|close_log].
  destruct (Count (filenames zf) <=? fileindex) eqn:C; [close_log|].
  destruct (wf_At zf fileindex W P C) as (fpos & fi & name & E1 & E2 & E3).
  destruct (ans_ReadCurrentFile w (to_uint (to_size_t p (uncompressed_size fi))))
    as [r bytes] eqn:R.
  run. rewrite E1. run.
  repeat (rewrite ?E2, ?E3, ?R, ?D; run; try case_if); close_log.
Qed.

(** A read that returns a count below the uncompressed size of the
    entry makes [GetFileData] return [NULL], and so does an error answered
    when the codec closes the entry, whatever the read returned; in both
    cases no buffer is left allocated: the one that was allocated has been
    released. A read that returns an error code is another matter, see
    [GetFileData_read_error_returned]. *)
Theorem GetFileData_short_read_or_crc `{BufOps} (p : Platform) (w : Answers)
    (zf : ZipFile) (fileindex : Z) (log : list Event) :
  wf zf -> 0 <= fileindex ->
  (forall fi, At (fileinfo zf) fileindex = Some fi ->
              0 <= read_result p w fi < uncompressed_size fi)
  \/ ans_CloseCurrentFile w <> UNZ_OK ->
  exists log',
    GetFileData p w zf fileindex log = Ret (None, log ++ log') /\
    live_buffers log' = 0.
Proof.
  intros W P [Hr | Hc].
  - apply short_read_returns_null; assumption.
  - apply close_error_returns_null; assumption.
Qed.

Lemma GetFileData_short_read_or_crc_witness :
  (exists log',
     @GetFileData ascii_BufOps Win32 (answers [1; 2; 3] UNZ_OK) one_small 0 [] =
       Ret (None, [] ++ log') /\
     live_buffers log' = 0) /\
  (exists log',
     @GetFileData ascii_BufOps Win64 (answers [1; 2; 3; 4; 5] UNZ_CRCERROR)
       one_small 0 [] = Ret (None, [] ++ log') /\
     live_buffers log' = 0).
Proof.
  split.
  - apply (@GetFileData_short_read_or_crc ascii_BufOps Win32
             (answers [1; 2; 3] UNZ_OK) one_small 0 []).
    + apply ZipFile_new_wf.
    + lia.
    + left. intros fi A. vm_compute in A. injection A as <-.
      vm_compute. split; [discriminate | reflexivity].
  - apply (@GetFileData_short_read_or_crc ascii_BufOps Win64
             (answers [1; 2; 3; 4; 5] UNZ_CRCERROR) one_small 0 []).
    + apply ZipFile_new_wf.
    + lia.
    + right. vm_compute. discriminate.
Defined.

(** The three runs on an entry of five bytes: a full read, a short read
    and a full read followed by an error at closing time. *)
Example run_full_read :
  @GetFileData ascii_BufOps Win32 (answers [1; 2; 3; 4; 5] UNZ_OK) one_small 0 [] =
  Ret (Some ([1; 2; 3; 4; 5; 0; 0], 5),
       [E_unzGoToFilePos64 {| pos_in_zip_directory := 0; num_of_file := 0 |};
        E_unzOpenCurrentFile; E_Alloc 7 true; E_unzReadCurrentFile 5;
        E_unzCloseCurrentFile]).
Proof. vm_compute. reflexivity. Qed.

Example run_short_read :
  @GetFileData ascii_BufOps Win32 (answers [1; 2; 3] UNZ_OK) one_small 0 [] =
  Ret (None,
       [E_unzGoToFilePos64 {| pos_in_zip_directory := 0; num_of_file := 0 |};
        E_unzOpenCurrentFile; E_Alloc 7 true; E_unzReadCurrentFile 5;
        E_Free true; E_unzCloseCurrentFile]).
Proof. vm_compute. reflexivity. Qed.

Example run_crc_error :
  @GetFileData ascii_BufOps Win32 (answers [1; 2; 3; 4; 5] UNZ_CRCERROR)
    one_small 0 [] =
  Ret (None,
       [E_unzGoToFilePos64 {| pos_in_zip_directory := 0; num_of_file := 0 |};
        E_unzOpenCurrentFile; E_Alloc 7 true; E_unzReadCurrentFile 5;
        E_unzCloseCurrentFile; E_Free true]).
Proof. vm_compute. reflexivity. Qed.

Example run_huge_entry :
  @GetFileData ascii_BufOps Win32 (answers [] UNZ_OK) one_huge 0 [] =
  Ret (None,
       [E_unzGoToFilePos64 {| pos_in_zip_directory := 0; num_of_file := 0 |};
        E_unzOpenCurrentFile; E_unzCloseCurrentFile]).
Proof. vm_compute. reflexivity. Qed.

(** C4, on the code: an entry that reports 2^32 - 3 bytes, read with a
    64-bit size type, and a read that fails: [unzReadCurrentFile] delivers
    no byte and returns [Z_DATA_ERROR] (-3). The value returned is stored
    in an [unsigned int] before it is compared with the size, where it is
    2^32 - 3, the size of the entry: the comparison does not see the
    failure, the buffer is not released, and [GetFileData] returns it with
    the full size as length instead of [NULL]. *)
Theorem GetFileData_read_error_returned :
  At (fileinfo one_wrapping) 0 = Some (plain_info 4294967293) /\
  ans_ReadCurrentFile (answers_read Z_DATA_ERROR []) 4294967293 =
    (Z_DATA_ERROR, []) /\
  Z_DATA_ERROR < 0 /\
  to_uint Z_DATA_ERROR = 4294967293 /\
  exists buf log,
    @GetFileData ascii_BufOps Win64 (answers_read Z_DATA_ERROR []) one_wrapping
      0 [] = Ret (Some (buf, 4294967293), log) /\
    log = [E_unzGoToFilePos64 {| pos_in_zip_directory := 0; num_of_file := 0 |};
           E_unzOpenCurrentFile; E_Alloc 4294967295 true;
           E_unzReadCurrentFile 4294967293; E_unzCloseCurrentFile] /\
    live_buffers log = 1.
Proof.
  split; [reflexivity|]. split; [reflexivity|]. split; [reflexivity|].
  split; [reflexivity|].
  eexists. eexists. split; [lazy; reflexivity|].
  split; reflexivity.
Qed.

(** ** A handle whose open failed *)

(** C7. On the handle the constructor leaves when the archive could not be
    opened, every query answers with its empty result: [GetFileData] (by
    index and by name) returns [NULL] and calls nothing, [GetFileTime] (by
    index and by name) returns the invalid time stamp, [GetComment] returns
    [NULL] and leaves no buffer allocated, the count of entries is 0, the
    lookup of any name returns [NOT_FOUND] and no index has a name. None of
    them faults or fails to return. *)
Theorem closed_handle_queries `{BufOps} `{WinTime} (p : Platform) (w : Answers)
    (fuel : nat) (fileindex : Z) (filename : tstring) (log : list Event) :
  let zf := ZipFile_new None in
  uf zf = None /\
  GetFileData p w zf fileindex log = Ret (None, log) /\
  GetFileData_name p (S fuel) w zf filename log = Ret (None, log) /\
  GetFileTime zf fileindex = Ret invalid_FILETIME /\
  GetFileTime_name p (S fuel) zf filename = Ret invalid_FILETIME /\
  (exists log', GetComment w zf log = Ret (None, log ++ log') /\
                live_buffers log' = 0) /\
  GetFileCount zf = 0 /\
  GetFileIndex p (S fuel) zf filename = Ret (NOT_FOUND p) /\
  GetFileName zf fileindex = None.
Proof.
  simpl. repeat split.
  - unfold GetComment. simpl. run.
    destruct (ans_Alloc w 1); run; close_log.
  - unfold GetFileName, At. simpl.
    destruct (Count [] <=? fileindex); [reflexivity|].
    destruct (fileindex <? 0); [reflexivity|].
    destruct (Z.to_nat fileindex); reflexivity.
Qed.

(** ** [ZipCreator::AddFile] *)

(** C8. [AddFile] fails exactly when the file does not exist, and then the
    list is left as it was; when the file exists, the path and the name are
    appended, and without a name in the archive the name is the base name
    of the path when the path is absolute and the path itself otherwise.
    On a file system where "/abs/path/readme.txt" exists, adding it without
    a name stores the name "readme.txt". *)
Theorem AddFile_spec `{PathOps} (d : ZipCreator) (filePath : tstring)
    (nameInZip : option tstring) :
  (fst (AddFile d filePath nameInZip) = false <-> file_Exists filePath = false) /\
  (file_Exists filePath = false -> AddFile d filePath nameInZip = (false, d)) /\
  (file_Exists filePath = true ->
   AddFile d filePath nameInZip =
   (true, d ++ [filePath;
                match nameInZip with
                | Some n => n
                | None => if path_IsAbsolute filePath
                          then path_GetBaseName filePath
                          else filePath
                end])) /\
  @AddFile (PathOps_on [tstr "/abs/path/readme.txt"]) []
    (tstr "/abs/path/readme.txt") None =
  (true, [tstr "/abs/path/readme.txt"; tstr "readme.txt"]).
Proof.
  unfold AddFile at 1 2 3.
  destruct (file_Exists filePath) eqn:E; simpl.
  - repeat split; try discriminate.
    intros _. rewrite <- app_assoc. simpl.
    destruct nameInZip; reflexivity.
  - repeat split; try discriminate; reflexivity.
Qed.

Lemma AddFile_spec_witness :
  let P := PathOps_on [tstr "C:\docs\a.txt"; tstr "notes\b.txt"] in
  @AddFile P [] (tstr "C:\docs\a.txt") None =
    (true, [tstr "C:\docs\a.txt"; tstr "a.txt"]) /\
  @AddFile P [] (tstr "notes\b.txt") None =
    (true, [tstr "notes\b.txt"; tstr "notes\b.txt"]) /\
  @AddFile P [] (tstr "missing.txt") None = (false, []).
Proof.
  intro P. split; [|split].
  - exact (proj1 (proj2 (proj2
             (@AddFile_spec P [] (tstr "C:\docs\a.txt") None))) eq_refl).
  - exact (proj1 (proj2 (proj2
             (@AddFile_spec P [] (tstr "notes\b.txt") None))) eq_refl).
  - exact (proj1 (proj2
             (@AddFile_spec P [] (tstr "missing.txt") None)) eq_refl).
Defined.

(** ** [UnzipFile] *)

Lemma UnzipFile_path_eq (filename dir : tstring) (unzippedName : option tstring) :
  UnzipFile_path filename dir unzippedName =
  match unzippedName with
  | Some n => join_dir dir ++ n
  | None => TransChars (join_dir dir) SLASH BACKSLASH
            ++ TransChars filename SLASH BACKSLASH
  end.
Proof.
  unfold UnzipFile_path, join_dir, TransChars.
  destruct (EndsWith1 dir BACKSLASH); simpl;
    destruct unzippedName; rewrite ?map_app; reflexivity.
Qed.

(** C9, as stated, fails: with the destination directory "C:/out" and no
    override name, the path the code writes to has the '/' of the
    directory translated as well, where the claim has only the name
    translated. *)
Lemma UnzipFile_path_translates_dir :
  UnzipFile_path (tstr "dir/file.bin") (tstr "C:/out") None =
    tstr "C:\out\dir\file.bin" /\
  spec_extract_path (tstr "dir/file.bin") (tstr "C:/out") None =
    tstr "C:/out\dir\file.bin" /\
  UnzipFile_path (tstr "dir/file.bin") (tstr "C:/out") None <>
    spec_extract_path (tstr "dir/file.bin") (tstr "C:/out") None.
Proof.
  split; [reflexivity|]. split; [reflexivity|]. vm_compute. discriminate.
Qed.

(** C9, amended. Once the entry has been read, [UnzipFile] writes to the
    directory, followed by a '\' unless the directory ends with one,
    followed by the override name as it is or, without an override name,
    by the name; in the latter case every '/' of the whole path, those of
    the directory included, is translated to '\'. It returns what the
    write answers, and the buffer is released after the write whatever
    that answer is. *)
Theorem UnzipFile_spec `{BufOps} (p : Platform) (fuel : nat) (w : Answers)
    (zf : ZipFile) (filename dir : tstring) (unzippedName : option tstring)
    (log log1 : list Event) (buf : list Z) (len : Z) :
  GetFileData_name p fuel w zf filename log = Ret (Some (buf, len), log1) ->
  let path :=
    match unzippedName with
    | Some n => join_dir dir ++ n
    | None => TransChars (join_dir dir) SLASH BACKSLASH
              ++ TransChars filename SLASH BACKSLASH
    end in
  let content := firstn (Z.to_nat len) buf in
  UnzipFile p fuel w zf filename dir unzippedName log =
  Ret (ans_WriteAll w path content,
       log1 ++ [E_WriteAll path content; E_Free true]).
Proof.
  intros G path content. unfold UnzipFile, bind at 1. rewrite G.
  rewrite UnzipFile_path_eq. fold path. fold content.
  run. rewrite <- app_assoc. reflexivity.
Qed.

Lemma UnzipFile_spec_witness :
  let w := answers [1; 2; 3; 4; 5] UNZ_OK in
  let log1 :=
    [E_unzGoToFilePos64 {| pos_in_zip_directory := 0; num_of_file := 0 |};
     E_unzOpenCurrentFile; E_Alloc 7 true; E_unzReadCurrentFile 5;
     E_unzCloseCurrentFile] in
  @GetFileData_name ascii_BufOps Win32 1 w one_small (tstr "dir/file.bin") [] =
    Ret (Some ([1; 2; 3; 4; 5; 0; 0], 5), log1) /\
  @UnzipFile ascii_BufOps Win32 1 w one_small
    (tstr "dir/file.bin") (tstr "C:\out") None [] =
  Ret (true,
       log1 ++ [E_WriteAll (tstr "C:\out\dir\file.bin") [1; 2; 3; 4; 5];
                E_Free true]).
Proof.
  intros w log1.
  assert (G : @GetFileData_name ascii_BufOps Win32 1 w one_small
                (tstr "dir/file.bin") [] =
              Ret (Some ([1; 2; 3; 4; 5; 0; 0], 5), log1))
    by (vm_compute; reflexivity).
  split; [exact G|].
  rewrite (@UnzipFile_spec ascii_BufOps Win32 1 w one_small
             (tstr "dir/file.bin") (tstr "C:\out") None [] log1
             [1; 2; 3; 4; 5; 0; 0] 5 G).
  reflexivity.
Defined.

(** When the entry cannot be read, nothing is written. *)
Lemma UnzipFile_no_data `{BufOps} (p : Platform) (fuel : nat) (w : Answers)
    (zf : ZipFile) (filename dir : tstring) (unzippedName : option tstring)
    (log log1 : list Event) :
  GetFileData_name p fuel w zf filename log = Ret (None, log1) ->
  UnzipFile p fuel w zf filename dir unzippedName log = Ret (false, log1).
Proof.
  intro G. unfold UnzipFile, bind at 1. rewrite G. reflexivity.
Qed.

(** ** Names longer than the buffers *)

Lemma ExtractFilenames_loop_filenames `{BufOps} (todo : nat)
    (cursor : list DirEntry) (zf : ZipFile) :
  filenames (ExtractFilenames_loop todo cursor zf) =
  filenames zf ++ map stored_name (accepted todo cursor).
Proof.
  revert cursor zf. induction todo as [|todo IH]; intros [|e cursor] zf; simpl;
    try (rewrite app_nil_r; reflexivity).
  destruct (info_err e =? UNZ_OK); destruct (next_err e =? UNZ_OK); simpl;
    rewrite ?IH; simpl; rewrite <- ?app_assoc, ?app_nil_r; reflexivity.
Qed.

Lemma ZipFile_new_filenames `{BufOps} (u : unzFile) :
  ginfo_err u = UNZ_OK ->
  filenames (ZipFile_new (Some u)) =
  map stored_name (accepted (Z.to_nat (number_entry u)) (directory u)).
Proof.
  intro G. unfold ZipFile_new, ExtractFilenames. simpl. rewrite G. simpl.
  rewrite ExtractFilenames_loop_filenames. reflexivity.
Qed.

Lemma EqI_Count (a b : tstring) : EqI a b = true -> Count a = Count b.
Proof.
  intro E. apply EqI_iff in E. unfold Count. f_equal.
  transitivity (List.length (map totlower a)).
  - symmetry. apply length_map.
  - rewrite E. apply length_map.
Qed.

Lemma At_In {A : Type} (els : list A) (i : Z) (x : A) :
  At els i = Some x -> In x els.
Proof.
  unfold At. destruct (i <? 0); [discriminate|]. apply nth_error_In.
Qed.

(** [GetFileData] returns on every handle that keeps its invariant, and a
    search by name, when it makes one, is for the re-encoding of the stored
    name through a buffer of [MAX_PATH] bytes. *)
Lemma GetFileData_locates_stored_name `{BufOps} (p : Platform) (w : Answers)
    (zf : ZipFile) (fileindex : Z) (log : list Event) :
  wf zf -> 0 <= fileindex ->
  exists r log',
    GetFileData p w zf fileindex log = Ret (r, log ++ log') /\
    (located log' = [] \/
     exists name fi,
       At (filenames zf) fileindex = Some name /\
       At (fileinfo zf) fileindex = Some fi /\
       located log' = [ToCodePageBuf MAX_PATH name (entry_cp fi)]).
Proof.
  intros W P. unfold GetFileData.
  destruct (uf zf) as [a|];
    [|exists None, []; rewrite app_nil_r; split; [reflexivity | left; reflexivity]].
  destruct (Count (filenames zf) <=? fileindex) eqn:C;
    [exists None, []; rewrite app_nil_r; split; [reflexivity | left; reflexivity]|].
  destruct (wf_At zf fileindex W P C) as (fpos & fi & name & E1 & E2 & E3).
  destruct (ans_ReadCurrentFile w (to_uint (to_size_t p (uncompressed_size fi))))
    as [r bytes] eqn:R.
  run. rewrite E1. run.
  repeat (rewrite ?E2, ?E3, ?R; run; try case_if);
    log_shape; eexists; eexists;
    (split; [reflexivity|]); simpl;
    first [ left; reflexivity
          | right; exists name, fi; repeat split; reflexivity ].
Qed.

(** A run with helpers that cut a name at the size of the buffer
    ([ascii_BufOps]), on an entry with a raw name of 300 characters: the
    entry is stored under the name the helpers left, the full name is not
    found, the stored one is, and the search by name is for the stored
    name. What the helpers of the code base leave in a buffer that is too
    small is not decided here. *)
Example long_name_stored :
  let zf := @ZipFile_new ascii_BufOps (Some one_long) in
  GetFileCount zf = 1 /\
  filenames zf = [repeat 97 259] /\
  GetFileIndex Win32 1 zf long_name = Ret (NOT_FOUND Win32) /\
  GetFileIndex Win32 1 zf (repeat 97 259) = Ret 0 /\
  exists r log,
    @GetFileData ascii_BufOps Win32 (answers_no_pos [1; 2; 3; 4; 5]) zf 0 [] =
      Ret (r, log) /\
    located log = [repeat 97 259].
Proof.
  split; [vm_compute; reflexivity|].
  split; [vm_compute; reflexivity|].
  split; [vm_compute; reflexivity|].
  split; [vm_compute; reflexivity|].
  eexists. eexists. split; [vm_compute; reflexivity | vm_compute; reflexivity].
Qed.

(** * Further properties *)

(** ** [ZipCreator::AddFileFromDir] and the list of pending files *)

Lemma StartsWith_app (txt rest : tstring) : StartsWith (txt ++ rest) txt = true.
Proof.
  induction txt as [|t txt IH]; simpl.
  - destruct rest; reflexivity.
  - rewrite Z.eqb_refl. exact IH.
Qed.

Lemma StartsWith_split (s txt : tstring) :
  StartsWith s txt = true -> s = txt ++ skipn (List.length txt) s.
Proof.
  revert s. induction txt as [|t txt IH]; intros s E.
  - reflexivity.
  - destruct s as [|c s]; simpl in E; [discriminate|].
    apply andb_true_iff in E. destruct E as [E1 E2].
    apply Z.eqb_eq in E1. subst c. simpl. f_equal. apply IH, E2.
Qed.

Lemma skipn_length_app (txt rest : tstring) :
  skipn (List.length txt) (txt ++ rest) = rest.
Proof. induction txt as [|t txt IH]; simpl; [reflexivity | exact IH]. Qed.

(** X1. [AddFileFromDir] returns [true] exactly when the path starts with
    the directory, character by character, and the file exists. It then
    appends the path and, as its name, what follows the directory in the
    path less one leading separator; otherwise the list is left as it was.
    The prefix test does not look at component boundaries, and the name is
    given explicitly, so the path helpers of [AddFile] are not asked. *)
Theorem AddFileFromDir_spec `{PathOps} (d : ZipCreator) (filePath dir : tstring) :
  (fst (AddFileFromDir d filePath dir) = true <->
   (exists rest, filePath = dir ++ rest) /\ file_Exists filePath = true) /\
  (forall rest, filePath = dir ++ rest -> file_Exists filePath = true ->
     AddFileFromDir d filePath dir =
     (true, d ++ [filePath; strip_sep rest])) /\
  (fst (AddFileFromDir d filePath dir) = false ->
   snd (AddFileFromDir d filePath dir) = d).
Proof.
  assert (OK : forall rest, filePath = dir ++ rest -> file_Exists filePath = true ->
               AddFileFromDir d filePath dir =
               (true, d ++ [filePath; strip_sep rest])).
  { intros rest E X. subst filePath. unfold AddFileFromDir, AddFile.
    rewrite StartsWith_app, skipn_length_app. simpl.
    rewrite X. simpl. rewrite <- app_assoc. simpl.
    destruct rest as [|c r]; [reflexivity|].
    unfold strip_sep. destruct (IsSep c); reflexivity. }
  split; [|split; [exact OK|]].
  - split.
    + unfold AddFileFromDir.
      destruct (StartsWith filePath dir) eqn:S; simpl; [|discriminate].
      unfold AddFile. destruct (file_Exists filePath) eqn:X; simpl;
        [|discriminate].
      intros _. split; [|reflexivity].
      exists (skipn (List.length dir) filePath). apply StartsWith_split, S.
    + intros [[rest E] X]. rewrite (OK rest E X). reflexivity.
  - unfold AddFileFromDir.
    destruct (StartsWith filePath dir); simpl; [|reflexivity].
    unfold AddFile. destruct (file_Exists filePath); simpl;
      [discriminate | reflexivity].
Qed.

Lemma AddFileFromDir_spec_witness :
  let P := PathOps_on [tstr "/proj/src/a.cpp"; tstr "/project/b.cpp"] in
  @AddFileFromDir P [] (tstr "/proj/src/a.cpp") (tstr "/proj") =
    (true, [tstr "/proj/src/a.cpp"; tstr "src/a.cpp"]) /\
  @AddFileFromDir P [] (tstr "/project/b.cpp") (tstr "/proj") =
    (true, [tstr "/project/b.cpp"; tstr "ect/b.cpp"]).
Proof.
  intro P. split.
  - exact (proj1 (proj2 (@AddFileFromDir_spec P [] (tstr "/proj/src/a.cpp")
                           (tstr "/proj")))
             (tstr "/src/a.cpp") eq_refl eq_refl).
  - exact (proj1 (proj2 (@AddFileFromDir_spec P [] (tstr "/project/b.cpp")
                           (tstr "/proj")))
             (tstr "ect/b.cpp") eq_refl eq_refl).
Defined.

Lemma pairs_list_app (ps qs : list (tstring * tstring)) :
  pairs_list (ps ++ qs) = pairs_list ps ++ pairs_list qs.
Proof.
  induction ps as [|[path name] ps IH]; simpl; [reflexivity|].
  rewrite IH. reflexivity.
Qed.

Lemma pairs_list_length (ps : list (tstring * tstring)) :
  List.length (pairs_list ps) = (2 * List.length ps)%nat.
Proof.
  induction ps as [|[path name] ps IH]; simpl; [reflexivity|].
  rewrite IH. lia.
Qed.

Lemma apply_op_pairs `{PathOps} (ps : list (tstring * tstring)) (op : AddOp) :
  (fst (apply_op (pairs_list ps) op) = false /\
   snd (apply_op (pairs_list ps) op) = pairs_list ps) \/
  (fst (apply_op (pairs_list ps) op) = true /\
   exists path name,
     snd (apply_op (pairs_list ps) op) = pairs_list (ps ++ [(path, name)])).
Proof.
  assert (A : forall filePath nameInZip,
             (fst (AddFile (pairs_list ps) filePath nameInZip) = false /\
              snd (AddFile (pairs_list ps) filePath nameInZip) = pairs_list ps) \/
             (fst (AddFile (pairs_list ps) filePath nameInZip) = true /\
              exists path name,
                snd (AddFile (pairs_list ps) filePath nameInZip) =
                pairs_list (ps ++ [(path, name)]))).
  { intros filePath nameInZip. unfold AddFile.
    destruct (file_Exists filePath); simpl; [right | left; tauto].
    split; [reflexivity|]. eexists. eexists.
    rewrite pairs_list_app, <- app_assoc. simpl. reflexivity. }
  destruct op as [filePath nameInZip | filePath dir]; simpl.
  - apply A.
  - unfold AddFileFromDir.
    destruct (StartsWith filePath dir); simpl; [apply A | left; tauto].
Qed.

(** X2. The list of a [ZipCreator] is always made of (path, name) pairs:
    after any sequence of [AddFile] and [AddFileFromDir] calls on a new
    creator it holds one pair for each call that returned [true], so that
    its length is twice their number and [SaveAs] pairs the elements as
    they were added. *)
Theorem apply_ops_pairs `{PathOps} (ops : list AddOp) :
  exists pairs,
    apply_ops [] ops = pairs_list pairs /\
    List.length pairs = count_added [] ops /\
    Count (apply_ops [] ops) = 2 * Z.of_nat (count_added [] ops).
Proof.
  assert (G : forall ops ps,
             exists pairs,
               apply_ops (pairs_list ps) ops = pairs_list pairs /\
               List.length pairs =
                 (List.length ps + count_added (pairs_list ps) ops)%nat).
  { clear ops. induction ops as [|op ops IH]; intro ps.
    - exists ps. simpl. split; [reflexivity | lia].
    - unfold apply_ops. simpl.
      destruct (apply_op (pairs_list ps) op) as [ok d'] eqn:E.
      destruct (apply_op_pairs ps op) as [[F S] | [F (path & name & S)]];
        rewrite E in F, S; simpl in F, S; subst ok d'.
      + destruct (IH ps) as (pairs & E1 & E2).
        exists pairs. split; [exact E1 | simpl; lia].
      + destruct (IH (ps ++ [(path, name)])) as (pairs & E1 & E2).
        exists pairs. split; [exact E1|].
        rewrite length_app in E2. simpl in E2. lia. }
  destruct (G ops []) as (pairs & E1 & E2). simpl in E1, E2.
  exists pairs. split; [exact E1|]. split; [exact E2|].
  rewrite E1. unfold Count. rewrite pairs_list_length. lia.
Qed.

(** ** [ZipCreator::SaveAs] *)

Lemma zcount_app (f : ZipEvent -> bool) (a b : list ZipEvent) :
  zcount f (a ++ b) = zcount f a + zcount f b.
Proof.
  unfold zcount, Count. rewrite filter_app, length_app. lia.
Qed.

Lemma turn_in_range (d : ZipCreator) (i n : Z) :
  0 <= i -> 0 < n -> 2 * (i + n) <= Count d ->
  exists path name, At d (2 * i) = Some path /\ At d (2 * i + 1) = Some name.
Proof.
  intros P N B.
  destruct (At_in_range d (2 * i)) as [path E1]; [lia|].
  destruct (At_in_range d (2 * i + 1)) as [name E2]; [lia|].
  exists path, name. tauto.
Qed.

Lemma SaveAs_loop_spec (w : ZipAnswers) (d : ZipCreator) (todo : nat) :
  forall (i : Z) (log : list ZipEvent),
  0 <= i -> 2 * (i + Z.of_nat todo) <= Count d ->
  exists result mid,
    SaveAs_loop w d todo i log = Ret (result, log ++ mid) /\
    existsb is_zipClose mid = false /\
    ((result = true /\
      (forall j, i <= j < i + Z.of_nat todo -> turn_ok_at w d j = true) /\
      zcount is_ReadAll mid = Z.of_nat todo /\
      zcount is_CloseFileInZip mid = Z.of_nat todo)
     \/
     (result = false /\
      exists k, i <= k < i + Z.of_nat todo /\
        (forall j, i <= j < k -> turn_ok_at w d j = true) /\
        turn_ok_at w d k = false /\
        zcount is_ReadAll mid = k - i + 1)).
Proof.
  induction todo as [|todo IH]; intros i log P B.
  - exists true, []. cbn [SaveAs_loop]. rewrite app_nil_r.
    split; [reflexivity|]. split; [reflexivity|]. left.
    split; [reflexivity|]. split; [intros j J; lia|]. split; reflexivity.
  - destruct (turn_in_range d i (Z.of_nat (S todo)) P ltac:(lia) B)
      as (path & name & E1 & E2).
    assert (Fail : forall mid,
               turn_ok_at w d i = false ->
               existsb is_zipClose mid = false ->
               zcount is_ReadAll mid = 1 ->
               exists result mid0,
                 Ret (false, log ++ mid) = Ret (result, log ++ mid0) /\
                 existsb is_zipClose mid0 = false /\
                 ((result = true /\
                   (forall j, i <= j < i + Z.of_nat (S todo) ->
                              turn_ok_at w d j = true) /\
                   zcount is_ReadAll mid0 = Z.of_nat (S todo) /\
                   zcount is_CloseFileInZip mid0 = Z.of_nat (S todo))
                  \/
                  (result = false /\
                   exists k, i <= k < i + Z.of_nat (S todo) /\
                     (forall j, i <= j < k -> turn_ok_at w d j = true) /\
                     turn_ok_at w d k = false /\
                     zcount is_ReadAll mid0 = k - i + 1))).
    { intros mid T Z1 R1. exists false, mid.
      split; [reflexivity|]. split; [exact Z1|]. right.
      split; [reflexivity|]. exists i.
      split; [lia|]. split; [intros j J; lia|]. split; [exact T|]. lia. }
    cbn [SaveAs_loop]. rewrite E1, E2. cbv zeta.
    destruct (zans_ReadAll w i path) as [data|] eqn:R.
    2:{ apply (Fail [Z_ReadAll path]); try reflexivity.
        unfold turn_ok_at, turn_ok. rewrite E1, E2, R. reflexivity. }
    destruct (zans_OpenNewFileInZip w i (zans_ToUtf8 w name) =? ZIP_OK) eqn:O;
      cbn [negb].
    2:{ rewrite <- app_assoc.
        apply (Fail ([Z_ReadAll path] ++
                     [Z_OpenNewFileInZip (zans_ToUtf8 w name)]));
          try reflexivity.
        unfold turn_ok_at, turn_ok. rewrite E1, E2, R, O. reflexivity. }
    destruct (zans_WriteInFileInZip w i data =? ZIP_OK) eqn:Wr; cbn [negb].
    2:{ rewrite <- !app_assoc.
        apply (Fail ([Z_ReadAll path] ++
                     [Z_OpenNewFileInZip (zans_ToUtf8 w name)] ++
                     [Z_WriteInFileInZip data])); try reflexivity.
        unfold turn_ok_at, turn_ok. rewrite E1, E2, R, O, Wr. reflexivity. }
    destruct (zans_CloseFileInZip w i =? ZIP_OK) eqn:Cl; cbn [negb].
    2:{ rewrite <- !app_assoc.
        apply (Fail ([Z_ReadAll path] ++
                     [Z_OpenNewFileInZip (zans_ToUtf8 w name)] ++
                     [Z_WriteInFileInZip data] ++ [Z_CloseFileInZip]));
          try reflexivity.
        unfold turn_ok_at, turn_ok. rewrite E1, E2, R, O, Wr, Cl. reflexivity. }
    assert (T : turn_ok_at w d i = true).
    { unfold turn_ok_at, turn_ok. rewrite E1, E2, R, O, Wr, Cl. reflexivity. }
    set (turn := [Z_ReadAll path; Z_OpenNewFileInZip (zans_ToUtf8 w name);
                  Z_WriteInFileInZip data; Z_CloseFileInZip]).
    replace ((((log ++ [Z_ReadAll path]) ++
               [Z_OpenNewFileInZip (zans_ToUtf8 w name)]) ++
              [Z_WriteInFileInZip data]) ++ [Z_CloseFileInZip])
      with (log ++ turn) by (rewrite <- !app_assoc; reflexivity).
    destruct (IH (i + 1) (log ++ turn) ltac:(lia) ltac:(lia))
      as (result & mid & L & Z1 & Cases).
    exists result, (turn ++ mid).
    split; [rewrite L, <- app_assoc; reflexivity|].
    split; [rewrite existsb_app, Z1; reflexivity|].
    assert (TR : zcount is_ReadAll turn = 1) by reflexivity.
    assert (TC : zcount is_CloseFileInZip turn = 1) by reflexivity.
    destruct Cases as [(-> & All & R1 & C1) | (-> & k & K & All & T' & R1)].
    + left. split; [reflexivity|]. split.
      * intros j J. destruct (Z.eq_dec j i) as [-> | NE]; [exact T|].
        apply All. lia.
      * split; rewrite zcount_app; lia.
    + right. split; [reflexivity|]. exists k. split; [lia|]. split.
      * intros j J. destruct (Z.eq_dec j i) as [-> | NE]; [exact T|].
        apply All. lia.
      * split; [exact T'|]. rewrite zcount_app. lia.
Qed.

Lemma Count_nonneg {A : Type} (els : list A) : 0 <= Count els.
Proof. unfold Count. lia. Qed.

Lemma half_fits (c : Z) : 0 <= c -> 0 <= c / 2 /\ 2 * (c / 2) <= c.
Proof.
  intro P. split; [apply Z.div_pos; lia | apply Z.mul_div_le; lia].
Qed.

Lemma SaveAs_loop_whole (w : ZipAnswers) (d : ZipCreator) (log : list ZipEvent) :
  exists result mid,
    SaveAs_loop w d (Z.to_nat (Count d / 2)) 0 log = Ret (result, log ++ mid) /\
    existsb is_zipClose mid = false /\
    ((result = true /\
      (forall j, 0 <= j < Count d / 2 -> turn_ok_at w d j = true) /\
      zcount is_ReadAll mid = Count d / 2 /\
      zcount is_CloseFileInZip mid = Count d / 2)
     \/
     (result = false /\
      exists k, 0 <= k < Count d / 2 /\
        (forall j, 0 <= j < k -> turn_ok_at w d j = true) /\
        turn_ok_at w d k = false /\
        zcount is_ReadAll mid = k + 1)).
Proof.
  destruct (half_fits (Count d) (Count_nonneg d)) as [H1 H2].
  destruct (SaveAs_loop_spec w d (Z.to_nat (Count d / 2)) 0 log ltac:(lia))
    as (result & mid & L & Z1 & Cases).
  { rewrite Z2Nat.id by exact H1. lia. }
  rewrite Z2Nat.id in Cases by exact H1.
  exists result, mid. split; [exact L|]. split; [exact Z1|].
  destruct Cases as [(-> & All & R1 & C1) | (-> & k & K & All & T & R1)].
  - left. split; [reflexivity|]. split; [intros j J; apply All; lia|].
    split; assumption.
  - right. split; [reflexivity|]. exists k. split; [lia|].
    split; [intros j J; apply All; lia|]. split; [exact T | lia].
Qed.

(** X3. [SaveAs] always returns, also on a list of odd length, and it
    closes the archive exactly once, as its last call, exactly when it
    opened it: with no pending file it calls nothing and returns [false];
    when the archive cannot be created that is its only call; otherwise
    [zipOpen2_64] comes first, [zipClose] last and nowhere in between, and
    an error of [zipClose] makes the result [false]. *)
Theorem SaveAs_closes_once (w : ZipAnswers) (d : ZipCreator)
    (zipFilePath : tstring) :
  exists result log,
    SaveAs w d zipFilePath = Ret (result, log) /\
    ((Count d = 0 /\ result = false /\ log = []) \/
     (Count d <> 0 /\ zans_zipOpen w zipFilePath = false /\
      result = false /\ log = [Z_zipOpen zipFilePath]) \/
     (Count d <> 0 /\ zans_zipOpen w zipFilePath = true /\
      exists mid,
        log = Z_zipOpen zipFilePath :: mid ++ [Z_zipClose] /\
        existsb is_zipClose mid = false /\
        (zans_zipClose w <> ZIP_OK -> result = false))).
Proof.
  unfold SaveAs. destruct (Count d =? 0) eqn:C.
  - apply Z.eqb_eq in C. exists false, []. split; [reflexivity|]. left. tauto.
  - apply Z.eqb_neq in C. destruct (zans_zipOpen w zipFilePath) eqn:O; simpl.
    + destruct (SaveAs_loop_whole w d [Z_zipOpen zipFilePath])
        as (result & mid & L & Z1 & _).
      rewrite L. eexists. eexists. split; [reflexivity|].
      right. right. split; [exact C|]. split; [reflexivity|].
      exists mid. split; [reflexivity|]. split; [exact Z1|].
      intro E. apply Z.eqb_neq in E. rewrite E. reflexivity.
    + exists false, [Z_zipOpen zipFilePath]. split; [reflexivity|].
      right. left. tauto.
Qed.

(** X4. [SaveAs] returns [true] exactly when there is a pending file, the
    archive could be created, every step of every turn succeeded (the
    read of the file, the opening of the entry, the write and the closing
    of the entry) and [zipClose] succeeded; it has then read and closed as
    many entries as the list holds pairs. *)
Theorem SaveAs_true_iff (w : ZipAnswers) (d : ZipCreator)
    (zipFilePath : tstring) :
  ((exists log, SaveAs w d zipFilePath = Ret (true, log)) <->
   Count d <> 0 /\ zans_zipOpen w zipFilePath = true /\
   (forall j, 0 <= j < Count d / 2 -> turn_ok_at w d j = true) /\
   zans_zipClose w = ZIP_OK) /\
  (forall log, SaveAs w d zipFilePath = Ret (true, log) ->
     zcount is_ReadAll log = Count d / 2 /\
     zcount is_CloseFileInZip log = Count d / 2).
Proof.
  unfold SaveAs.
  destruct (SaveAs_loop_whole w d [Z_zipOpen zipFilePath])
    as (result & mid & L & Z1 & Cases).
  split; [split|].
  - intros [log E].
    destruct (Count d =? 0) eqn:C; [discriminate|]. apply Z.eqb_neq in C.
    destruct (zans_zipOpen w zipFilePath); simpl in E; [|discriminate].
    rewrite L in E.
    destruct (zans_zipClose w =? ZIP_OK) eqn:K; simpl in E; [|discriminate].
    apply Z.eqb_eq in K.
    injection E as E _. subst result.
    destruct Cases as [(_ & All & _) | (F & _)]; [|discriminate].
    tauto.
  - intros (C & O & All & K).
    replace (Count d =? 0) with false by (symmetry; apply Z.eqb_neq, C).
    rewrite O. simpl. rewrite L, K. simpl.
    destruct Cases as [(-> & _) | (-> & k & K1 & _ & T & _)].
    + eexists. reflexivity.
    + rewrite (All k K1) in T. discriminate.
  - intros log E.
    destruct (Count d =? 0) eqn:C; [discriminate|].
    destruct (zans_zipOpen w zipFilePath); simpl in E; [|discriminate].
    rewrite L in E.
    destruct (zans_zipClose w =? ZIP_OK) eqn:K; simpl in E; [|discriminate].
    injection E as E <-. subst result.
    destruct Cases as [(_ & _ & R1 & C1) | (F & _)]; [|discriminate].
    change (Z_zipOpen zipFilePath :: mid ++ [Z_zipClose])
      with ([Z_zipOpen zipFilePath] ++ mid ++ [Z_zipClose]).
    rewrite !zcount_app, R1, C1.
    change (zcount is_ReadAll [Z_zipOpen zipFilePath]) with 0.
    change (zcount is_ReadAll [Z_zipClose]) with 0.
    change (zcount is_CloseFileInZip [Z_zipOpen zipFilePath]) with 0.
    change (zcount is_CloseFileInZip [Z_zipClose]) with 0.
    split; lia.
Qed.

(** X5. The first turn with a failing step ends the loop: when the turns
    before turn [k] succeed and turn [k] does not, [SaveAs] returns
    [false], it has read the files of the turns 0 to [k] and no other, and
    it has closed the archive once. *)
Theorem SaveAs_stops_at_first_failure (w : ZipAnswers) (d : ZipCreator)
    (zipFilePath : tstring) (k : Z) :
  zans_zipOpen w zipFilePath = true ->
  0 <= k < Count d / 2 ->
  (forall j, 0 <= j < k -> turn_ok_at w d j = true) ->
  turn_ok_at w d k = false ->
  exists log,
    SaveAs w d zipFilePath = Ret (false, log) /\
    zcount is_ReadAll log = k + 1 /\
    zcount is_zipClose log = 1.
Proof.
  intros O K Before T. unfold SaveAs.
  assert (C : Count d <> 0).
  { intro E. rewrite E in K. change (0 / 2) with 0 in K. lia. }
  replace (Count d =? 0) with false by (symmetry; apply Z.eqb_neq, C).
  rewrite O. simpl.
  destruct (SaveAs_loop_whole w d [Z_zipOpen zipFilePath])
    as (result & mid & L & Z1 & Cases).
  rewrite L.
  assert (ZC : zcount is_zipClose mid = 0).
  { clear - Z1. unfold zcount, Count.
    induction mid as [|e mid IH]; [reflexivity|].
    simpl in Z1 |- *. apply orb_false_iff in Z1. destruct Z1 as [Z1 Z2].
    rewrite Z1. apply IH, Z2. }
  destruct Cases as [(-> & All & _) | (-> & k' & K' & All & T' & R1)].
  - rewrite (All k K) in T. discriminate.
  - assert (k' = k).
    { destruct (Z_lt_le_dec k' k) as [Lt | Ge].
      - rewrite (Before k' ltac:(lia)) in T'. discriminate.
      - destruct (Z.eq_dec k' k) as [? | NE]; [assumption|].
        rewrite (All k ltac:(lia)) in T. discriminate. }
    subst k'. eexists. split.
    + destruct (negb (zans_zipClose w =? ZIP_OK)); reflexivity.
    + change ([Z_zipOpen zipFilePath] ++ mid ++ [Z_zipClose])
        with ([Z_zipOpen zipFilePath] ++ mid ++ [Z_zipClose]).
      rewrite <- app_assoc, !zcount_app, R1, ZC.
      change (zcount is_ReadAll [Z_zipOpen zipFilePath]) with 0.
      change (zcount is_ReadAll [Z_zipClose]) with 0.
      change (zcount is_zipClose [Z_zipOpen zipFilePath]) with 0.
      change (zcount is_zipClose [Z_zipClose]) with 1.
      split; lia.
Qed.

Lemma SaveAs_stops_at_first_failure_witness :
  exists log,
    SaveAs zip_answers_write_fails (pairs_list (pairs_of three_files))
      (tstr "out.zip") = Ret (false, log) /\
    zcount is_ReadAll log = 1 + 1 /\
    zcount is_zipClose log = 1.
Proof.
  apply (SaveAs_stops_at_first_failure zip_answers_write_fails
           (pairs_list (pairs_of three_files)) (tstr "out.zip") 1).
  - reflexivity.
  - vm_compute. split; [discriminate | reflexivity].
  - intros j J. assert (j = 0) by lia. subst j. reflexivity.
  - reflexivity.
Defined.

Lemma nth_error_pairs_list (ps : list (tstring * tstring)) (n : nat)
    (path name : tstring) :
  nth_error ps n = Some (path, name) ->
  nth_error (pairs_list ps) (2 * n) = Some path /\
  nth_error (pairs_list ps) (S (2 * n)) = Some name.
Proof.
  revert n. induction ps as [|[p0 n0] ps IH]; intros n E.
  - destruct n; discriminate.
  - destruct n as [|n].
    + injection E as -> ->. split; reflexivity.
    + replace (2 * S n)%nat with (S (S (2 * n))) by lia. simpl.
      apply IH. exact E.
Qed.

Lemma At_pairs_list (ps : list (tstring * tstring)) (n : nat)
    (path name : tstring) :
  nth_error ps n = Some (path, name) ->
  At (pairs_list ps) (2 * Z.of_nat n) = Some path /\
  At (pairs_list ps) (2 * Z.of_nat n + 1) = Some name.
Proof.
  intro E. destruct (nth_error_pairs_list ps n path name E) as [E1 E2].
  unfold At.
  replace (2 * Z.of_nat n <? 0) with false by (symmetry; apply Z.ltb_ge; lia).
  replace (2 * Z.of_nat n + 1 <? 0) with false
    by (symmetry; apply Z.ltb_ge; lia).
  replace (Z.to_nat (2 * Z.of_nat n)) with (2 * n)%nat by lia.
  replace (Z.to_nat (2 * Z.of_nat n + 1)) with (S (2 * n)) by lia.
  split; assumption.
Qed.

Lemma SaveAs_loop_full (w : ZipAnswers) (d : ZipCreator)
    (triples : list (tstring * tstring * list Z)) :
  forall (i : Z) (log : list ZipEvent),
  (forall n path name data,
     nth_error triples n = Some (path, name, data) ->
     At d (2 * (i + Z.of_nat n)) = Some path /\
     At d (2 * (i + Z.of_nat n) + 1) = Some name /\
     zans_ReadAll w (i + Z.of_nat n) path = Some data /\
     zans_OpenNewFileInZip w (i + Z.of_nat n) (zans_ToUtf8 w name) = ZIP_OK /\
     zans_WriteInFileInZip w (i + Z.of_nat n) data = ZIP_OK /\
     zans_CloseFileInZip w (i + Z.of_nat n) = ZIP_OK) ->
  SaveAs_loop w d (List.length triples) i log =
  Ret (true, log ++ full_turns w triples).
Proof.
  induction triples as [|[[path name] data] triples IH]; intros i log A.
  - cbn [SaveAs_loop List.length full_turns]. rewrite app_nil_r. reflexivity.
  - destruct (A O path name data eq_refl) as (E1 & E2 & R & O & Wr & Cl).
    change (Z.of_nat 0) with 0 in *. rewrite Z.add_0_r in *.
    cbn [SaveAs_loop List.length full_turns].
    rewrite E1, E2. cbv zeta. rewrite R, O, Wr, Cl. cbn [negb Z.eqb ZIP_OK].
    change (ZIP_OK =? ZIP_OK) with true. cbn [negb].
    rewrite IH.
    + rewrite <- !app_assoc. reflexivity.
    + intros n p nm dt E.
      replace (i + 1 + Z.of_nat n) with (i + Z.of_nat (S n)) by lia.
      apply A. exact E.
Qed.

(** X6. When the archive can be created and every step of every turn
    succeeds, [SaveAs] writes one entry for each pending pair, in the order
    in which the pairs were added: for each it reads the file, opens an
    entry under the UTF-8 form of the name, writes the whole content in one
    write and closes the entry; it closes the archive last, and its result
    is whether [zipClose] succeeded. *)
Theorem SaveAs_writes_in_order (w : ZipAnswers)
    (triples : list (tstring * tstring * list Z)) (zipFilePath : tstring) :
  triples <> [] ->
  zans_zipOpen w zipFilePath = true ->
  (forall n path name data,
     nth_error triples n = Some (path, name, data) ->
     zans_ReadAll w (Z.of_nat n) path = Some data /\
     zans_OpenNewFileInZip w (Z.of_nat n) (zans_ToUtf8 w name) = ZIP_OK /\
     zans_WriteInFileInZip w (Z.of_nat n) data = ZIP_OK /\
     zans_CloseFileInZip w (Z.of_nat n) = ZIP_OK) ->
  SaveAs w (pairs_list (pairs_of triples)) zipFilePath =
  Ret (zans_zipClose w =? ZIP_OK,
       Z_zipOpen zipFilePath :: full_turns w triples ++ [Z_zipClose]).
Proof.
  intros NE O A. unfold SaveAs.
  assert (C : Count (pairs_list (pairs_of triples)) =
              2 * Z.of_nat (List.length triples)).
  { unfold Count, pairs_of. rewrite pairs_list_length, length_map. lia. }
  rewrite C.
  replace (2 * Z.of_nat (List.length triples) =? 0) with false.
  2:{ symmetry. apply Z.eqb_neq. destruct triples; [contradiction|].
      simpl List.length. lia. }
  rewrite O. cbn [negb].
  replace (2 * Z.of_nat (List.length triples) / 2)
    with (Z.of_nat (List.length triples))
    by (rewrite Z.mul_comm, Z.div_mul; lia).
  rewrite Nat2Z.id.
  rewrite (SaveAs_loop_full w _ triples 0 [Z_zipOpen zipFilePath]).
  - destruct (zans_zipClose w =? ZIP_OK); reflexivity.
  - intros n path name data E. rewrite Z.add_0_l.
    assert (E' : nth_error (pairs_of triples) n = Some (path, name)).
    { unfold pairs_of. rewrite nth_error_map, E. reflexivity. }
    destruct (At_pairs_list _ n path name E') as [E1 E2].
    destruct (A n path name data E) as (R & Op & Wr & Cl).
    repeat split; assumption.
Qed.

Lemma SaveAs_writes_in_order_witness :
  SaveAs zip_answers_ok (pairs_list (pairs_of three_files)) (tstr "out.zip") =
  Ret (true,
       Z_zipOpen (tstr "out.zip")
       :: full_turns zip_answers_ok three_files ++ [Z_zipClose]).
Proof.
  apply (SaveAs_writes_in_order zip_answers_ok three_files (tstr "out.zip")).
  - discriminate.
  - reflexivity.
  - intros n path name data E.
    destruct n as [|[|[|n]]]; simpl in E;
      [ | | | destruct n; discriminate ];
      injection E as <- <- <-; repeat split; reflexivity.
Defined.

(** ** More on the quick hash *)

Lemma fold_byte_mod (c : Z) : fold_byte c = totlower c mod 256.
Proof.
  unfold fold_byte. change 0xFF with (Z.ones 8).
  rewrite Z.land_ones by lia. reflexivity.
Qed.

Lemma no_upper_totlower (c : Z) :
  no_upper c = true -> 0 < c /\ c + 256 <= 0xFFFF /\ totlower c = c.
Proof.
  unfold no_upper, totlower. intro N. apply andb_true_iff in N.
  destruct N as [N N3]. apply andb_true_iff in N.
  destruct N as [N1 N2]. apply Z.leb_le in N1, N3. apply negb_true_iff in N2.
  rewrite N2. split; [lia|]. split; [exact N3 | reflexivity].
Qed.

Lemma totlower_above (c : Z) : 90 < c -> totlower c = c.
Proof.
  intro H. unfold totlower.
  replace (c <=? 90) with false by (symmetry; apply Z.leb_gt; exact H).
  rewrite andb_false_r. reflexivity.
Qed.

(** X7. Only the low byte of a lower-cased character enters the hash.
    Take a name whose characters are 16-bit code units, none of them an
    upper-case ASCII letter, each at most 0xFFFF - 256: adding 256 to
    every character gives again a name of 16-bit code units, with the same
    hash, although, unless the name is empty, the two names are not equal
    under the case-insensitive comparison. Such pairs of names are the
    collisions the lookup has to tell apart by comparing the strings. *)
Theorem GetQuickHashI_high_byte_ignored (s : tstring) :
  forallb no_upper s = true ->
  Forall (fun c => 0 < c <= 0xFFFF) (map (fun c => c + 256) s) /\
  GetQuickHashI (map (fun c => c + 256) s) = GetQuickHashI s /\
  (s <> [] -> EqI (map (fun c => c + 256) s) s = false).
Proof.
  intro N. split; [|split].
  - induction s as [|c s IH]; [constructor|].
    cbn [forallb] in N. apply andb_true_iff in N. destruct N as [N1 N2].
    destruct (no_upper_totlower c N1) as (P & U & T).
    cbn [map]. constructor; [lia | apply IH, N2].
  - apply GetQuickHashI_bytes. rewrite map_map.
    induction s as [|c s IH]; [reflexivity|].
    cbn [forallb] in N. apply andb_true_iff in N. destruct N as [N1 N2].
    cbn [map]. rewrite (IH N2). f_equal.
    destruct (no_upper_totlower c N1) as (P & U & T).
    rewrite !fold_byte_mod, T, (totlower_above (c + 256)) by lia.
    replace (c + 256) with (c + 1 * 256) by lia. apply Z.mod_add. lia.
  - intro NE. destruct s as [|c s]; [contradiction|].
    cbn [forallb] in N. apply andb_true_iff in N. destruct N as [N1 _].
    destruct (no_upper_totlower c N1) as (P & U & T).
    cbn [map EqI]. rewrite T, (totlower_above (c + 256)) by lia.
    replace (c + 256 =? c) with false by (symmetry; apply Z.eqb_neq; lia).
    reflexivity.
Qed.

Lemma GetQuickHashI_high_byte_ignored_witness :
  Forall (fun c => 0 < c <= 0xFFFF) (map (fun c => c + 256) (tstr "a.txt")) /\
  GetQuickHashI (map (fun c => c + 256) (tstr "a.txt")) =
    GetQuickHashI (tstr "a.txt") /\
  (tstr "a.txt" <> [] ->
   EqI (map (fun c => c + 256) (tstr "a.txt")) (tstr "a.txt") = false).
Proof.
  apply (GetQuickHashI_high_byte_ignored (tstr "a.txt")). reflexivity.
Defined.

(** X8. The accumulator starts at 0 and a leading character whose folded
    byte is 0 leaves it at 0: such a character in front of a name does not
    change the hash. *)
Theorem GetQuickHashI_leading_zero_byte (c : TCHAR) (s : tstring) :
  fold_byte c = 0 -> GetQuickHashI (c :: s) = GetQuickHashI s.
Proof.
  intro F. unfold GetQuickHashI. cbn [fold_left].
  unfold hash_step at 2. rewrite F.
  replace (crc_mix 0 0) with 0 by (vm_compute; reflexivity).
  reflexivity.
Qed.

Lemma GetQuickHashI_leading_zero_byte_witness :
  GetQuickHashI (256 :: tstr "a.txt") = GetQuickHashI (tstr "a.txt").
Proof.
  apply (GetQuickHashI_leading_zero_byte 256 (tstr "a.txt")). reflexivity.
Defined.

(** ** The index built at open time *)

Lemma ExtractFilenames_loop_fields `{BufOps} (todo : nat) (cursor : list DirEntry)
    (zf : ZipFile) :
  let kept := filter info_ok (firstn todo (walk cursor)) in
  let zf' := ExtractFilenames_loop todo cursor zf in
  uf zf' = uf zf /\
  filenames zf' = filenames zf ++ map stored_name kept /\
  filenameHashes zf' =
    filenameHashes zf ++ map (fun e => GetQuickHashI (stored_name e)) kept /\
  fileinfo zf' = fileinfo zf ++ map info kept /\
  filepos zf' = filepos zf ++ map stored_pos kept /\
  commentLen zf' = commentLen zf.
Proof.
  cbv zeta. revert cursor zf.
  induction todo as [|todo IH]; intros [|e cursor] zf;
    try (cbn; rewrite !app_nil_r; repeat split; reflexivity).
  cbn [ExtractFilenames_loop walk firstn].
  destruct (next_err e =? UNZ_OK) eqn:Nx.
  - cbn [filter]. unfold info_ok at 1 4 7 10.
    destruct (info_err e =? UNZ_OK) eqn:Ie.
    + destruct (IH cursor (append_entry e zf)) as (I1 & I2 & I3 & I4 & I5 & I6).
      rewrite I1, I2, I3, I4, I5, I6.
      unfold append_entry, stored_name, stored_pos.
      cbn [uf filenames filenameHashes fileinfo filepos commentLen map].
      rewrite <- !app_assoc. repeat split; reflexivity.
    + destruct (IH cursor zf) as (I1 & I2 & I3 & I4 & I5 & I6).
      rewrite I1, I2, I3, I4, I5, I6. repeat split; reflexivity.
  - replace (firstn todo []) with (@nil DirEntry) by (destruct todo; reflexivity).
    cbn [filter]. unfold info_ok.
    destruct (info_err e =? UNZ_OK) eqn:Ie.
    + unfold append_entry, stored_name, stored_pos.
      cbn [uf filenames filenameHashes fileinfo filepos commentLen map].
      repeat split; reflexivity.
    + cbn [map]. rewrite !app_nil_r. repeat split; reflexivity.
Qed.

Lemma ZipFile_new_fields `{BufOps} (u : unzFile) :
  ginfo_err u = UNZ_OK ->
  let zf := ZipFile_new (Some u) in
  uf zf = Some u /\
  filenames zf = map stored_name (indexed u) /\
  filenameHashes zf = map (fun e => GetQuickHashI (stored_name e)) (indexed u) /\
  fileinfo zf = map info (indexed u) /\
  filepos zf = map stored_pos (indexed u) /\
  commentLen zf = size_comment u.
Proof.
  intro G. unfold ZipFile_new, ExtractFilenames. cbn [uf]. rewrite G.
  change (UNZ_OK =? UNZ_OK) with true. cbn [negb].
  pose proof (ExtractFilenames_loop_fields (Z.to_nat (number_entry u))
                (directory u)
                {| uf := Some u; filenames := []; filenameHashes := [];
                   fileinfo := []; filepos := []; commentLen := 0 |}) as F.
  cbv zeta in F. cbn [uf filenames filenameHashes fileinfo filepos commentLen app] in F.
  destruct F as (F1 & F2 & F3 & F4 & F5 & F6).
  unfold set_commentLen, indexed. cbn.
  rewrite F1, F2, F3, F4, F5. repeat split; reflexivity.
Qed.

(** X9. What the index holds once the global information has been read.
    The cursor visits the directory in order until [unzGoToNextFile]
    answers an error, and at most [number_entry] positions; of the
    positions visited, those whose descriptor could be read are indexed,
    in order, and the others are passed over. For each indexed entry the
    four vectors hold, at the same index, the name found in the buffer,
    the hash of that name, the descriptor and the locator, which is the
    sentinel when [unzGetFilePos64] failed. The length of the comment is
    taken from the global information. *)
Theorem ExtractFilenames_index `{BufOps} (u : unzFile) :
  ginfo_err u = UNZ_OK ->
  let zf := ZipFile_new (Some u) in
  uf zf = Some u /\
  filenames zf = map stored_name (indexed u) /\
  filenameHashes zf = map (fun e => GetQuickHashI (stored_name e)) (indexed u) /\
  fileinfo zf = map info (indexed u) /\
  filepos zf = map stored_pos (indexed u) /\
  commentLen zf = size_comment u.
Proof. exact (ZipFile_new_fields u). Qed.

Lemma ExtractFilenames_index_witness :
  let zf := @ZipFile_new ascii_BufOps (Some broken_after_two) in
  uf zf = Some broken_after_two /\
  filenames zf = map (@stored_name ascii_BufOps) (indexed broken_after_two) /\
  filenameHashes zf =
    map (fun e => GetQuickHashI (@stored_name ascii_BufOps e))
      (indexed broken_after_two) /\
  fileinfo zf = map info (indexed broken_after_two) /\
  filepos zf = map stored_pos (indexed broken_after_two) /\
  commentLen zf = size_comment broken_after_two.
Proof.
  apply (@ExtractFilenames_index ascii_BufOps broken_after_two). reflexivity.
Defined.

Lemma walk_length (cursor : list DirEntry) :
  (List.length (walk cursor) <= List.length cursor)%nat.
Proof.
  induction cursor as [|e cursor IH]; simpl; [lia|].
  destruct (next_err e =? UNZ_OK); simpl; lia.
Qed.

Lemma filter_length_le {A : Type} (f : A -> bool) (l : list A) :
  (List.length (filter f l) <= List.length l)%nat.
Proof.
  induction l as [|x l IH]; simpl; [lia|]. destruct (f x); simpl; lia.
Qed.

(** X10. The index never holds more entries than the archive announces in
    [number_entry], nor more than the directory has, whatever the codec
    answers; when the global information cannot be read it is empty. *)
Theorem GetFileCount_bounds `{BufOps} (u : unzFile) :
  let zf := ZipFile_new (Some u) in
  0 <= GetFileCount zf <= Z.max 0 (number_entry u) /\
  GetFileCount zf <= Count (directory u) /\
  (ginfo_err u <> UNZ_OK -> GetFileCount zf = 0).
Proof.
  intro zf. unfold GetFileCount.
  destruct (Z.eq_dec (ginfo_err u) UNZ_OK) as [G | G].
  - destruct (ZipFile_new_fields u G) as (_ & F & _). fold zf in F.
    rewrite F. unfold Count, indexed. rewrite length_map.
    pose proof (filter_length_le info_ok
                  (firstn (Z.to_nat (number_entry u)) (walk (directory u)))) as L.
    rewrite length_firstn in L.
    pose proof (walk_length (directory u)).
    split; [lia|]. split; [lia | contradiction].
  - assert (E : filenames zf = []).
    { unfold zf, ZipFile_new, ExtractFilenames. cbn [uf].
      replace (ginfo_err u =? UNZ_OK) with false
        by (symmetry; apply Z.eqb_neq, G).
      reflexivity. }
    rewrite E. unfold Count. simpl. split; [lia|]. split; [lia | reflexivity].
Qed.

Lemma walk_all_ok (cursor : list DirEntry) :
  Forall (fun e => next_err e = UNZ_OK) (removelast cursor) ->
  walk cursor = cursor.
Proof.
  induction cursor as [|e cursor IH]; intro A; [reflexivity|].
  destruct cursor as [|e' cursor].
  - simpl. destruct (next_err e =? UNZ_OK); reflexivity.
  - change (removelast (e :: e' :: cursor))
      with (e :: removelast (e' :: cursor)) in A.
    inversion A as [|? ? A1 A2]; subst.
    cbn [walk]. rewrite A1. change (UNZ_OK =? UNZ_OK) with true. cbv iota.
    f_equal. apply IH, A2.
Qed.

Lemma filter_all {A : Type} (f : A -> bool) (l : list A) :
  Forall (fun x => f x = true) l -> filter f l = l.
Proof.
  induction 1 as [|x l Hx _ IH]; simpl; [reflexivity|].
  rewrite Hx, IH. reflexivity.
Qed.

(** X11. When the archive is read without error (the global information
    and every descriptor can be read, every step but the one past the last
    entry succeeds, and [number_entry] is the number of entries), index
    [i] of the handle denotes entry [i] of the directory: the names and the
    descriptors are those of the directory, in order. *)
Theorem ExtractFilenames_complete `{BufOps} (u : unzFile) :
  ginfo_err u = UNZ_OK ->
  number_entry u = Count (directory u) ->
  Forall (fun e => info_err e = UNZ_OK) (directory u) ->
  Forall (fun e => next_err e = UNZ_OK) (removelast (directory u)) ->
  let zf := ZipFile_new (Some u) in
  filenames zf = map stored_name (directory u) /\
  fileinfo zf = map info (directory u) /\
  GetFileCount zf = number_entry u.
Proof.
  intros G N I X zf.
  destruct (ZipFile_new_fields u G) as (_ & F1 & _ & F2 & _).
  fold zf in F1, F2.
  assert (E : indexed u = directory u).
  { unfold indexed. rewrite (walk_all_ok _ X), N. unfold Count.
    rewrite Nat2Z.id, firstn_all. apply filter_all.
    revert I. apply Forall_impl. intros e E. unfold info_ok. rewrite E.
    reflexivity. }
  rewrite E in F1, F2. split; [exact F1|]. split; [exact F2|].
  unfold GetFileCount, Count. rewrite F1, length_map, N. reflexivity.
Qed.

Lemma ExtractFilenames_complete_witness :
  let u := archive_of [(tstr "Report.TXT", 5); (tstr "data.bin", 7)] in
  let zf := @ZipFile_new ascii_BufOps (Some u) in
  filenames zf = map (@stored_name ascii_BufOps) (directory u) /\
  fileinfo zf = map info (directory u) /\
  GetFileCount zf = number_entry u.
Proof.
  intros u.
  apply (@ExtractFilenames_complete ascii_BufOps u).
  - reflexivity.
  - reflexivity.
  - repeat constructor.
  - repeat constructor.
Defined.

Lemma walk_stops (pre post : list DirEntry) (e : DirEntry) :
  next_err e <> UNZ_OK -> walk (pre ++ e :: post) = walk (pre ++ [e]).
Proof.
  intro N. induction pre as [|x pre IH]; cbn [app walk].
  - replace (next_err e =? UNZ_OK) with false
      by (symmetry; apply Z.eqb_neq, N). reflexivity.
  - rewrite IH. reflexivity.
Qed.

(** X12. The enumeration stops at the first entry after which
    [unzGoToNextFile] answers an error: the entries that follow it in the
    directory leave no trace in the handle, which is the one the archive
    cut after that entry would give; the entries before it stay indexed. *)
Theorem ExtractFilenames_stops_at_error `{BufOps} (u : unzFile)
    (pre post : list DirEntry) (e : DirEntry) :
  directory u = pre ++ e :: post ->
  next_err e <> UNZ_OK ->
  let zf := ZipFile_new (Some u) in
  let zf' := ZipFile_new (Some (with_directory u (pre ++ [e]))) in
  filenames zf = filenames zf' /\
  filenameHashes zf = filenameHashes zf' /\
  fileinfo zf = fileinfo zf' /\
  filepos zf = filepos zf' /\
  commentLen zf = commentLen zf'.
Proof.
  intros D N zf zf'.
  destruct (Z.eq_dec (ginfo_err u) UNZ_OK) as [G | G].
  - destruct (ZipFile_new_fields u G) as (_ & A1 & A2 & A3 & A4 & A5).
    destruct (ZipFile_new_fields (with_directory u (pre ++ [e])) G)
      as (_ & B1 & B2 & B3 & B4 & B5).
    fold zf in A1, A2, A3, A4, A5. fold zf' in B1, B2, B3, B4, B5.
    assert (E : indexed (with_directory u (pre ++ [e])) = indexed u).
    { unfold indexed. cbn [with_directory number_entry directory].
      rewrite D, (walk_stops pre post e N). reflexivity. }
    rewrite E in B1, B2, B3, B4.
    rewrite A1, A2, A3, A4, A5, B1, B2, B3, B4, B5. repeat split; reflexivity.
  - unfold zf, zf', ZipFile_new, ExtractFilenames.
    cbn [uf with_directory ginfo_err].
    replace (ginfo_err u =? UNZ_OK) with false
      by (symmetry; apply Z.eqb_neq, G).
    cbn. repeat split; reflexivity.
Qed.

Lemma ExtractFilenames_stops_at_error_witness :
  let zf := @ZipFile_new ascii_BufOps (Some broken_after_two) in
  let zf' := @ZipFile_new ascii_BufOps
               (Some (with_directory broken_after_two
                        (firstn 2 (directory broken_after_two)))) in
  filenames zf = filenames zf' /\
  filenameHashes zf = filenameHashes zf' /\
  fileinfo zf = fileinfo zf' /\
  filepos zf = filepos zf' /\
  commentLen zf = commentLen zf'.
Proof.
  apply (@ExtractFilenames_stops_at_error ascii_BufOps broken_after_two
           (firstn 1 (directory broken_after_two))
           (skipn 2 (directory broken_after_two))
           (nth 1 (directory broken_after_two) nil_entry)).
  - reflexivity.
  - vm_compute. discriminate.
Defined.

Example broken_after_two_index :
  filenames (@ZipFile_new ascii_BufOps (Some broken_after_two)) =
  [tstr "a"; tstr "b"].
Proof. vm_compute. reflexivity. Qed.

Lemma GetFileName_At (zf : ZipFile) (i : Z) (name : tstring) :
  GetFileName zf i = Some name <-> At (filenames zf) i = Some name.
Proof.
  unfold GetFileName. destruct (Count (filenames zf) <=? i) eqn:C.
  - split; [discriminate|]. intro A. exfalso. apply Z.leb_le in C.
    unfold At in A. destruct (i <? 0) eqn:L; [discriminate|].
    apply Z.ltb_ge in L.
    assert (N : nth_error (filenames zf) (Z.to_nat i) <> None)
      by (rewrite A; discriminate).
    apply nth_error_Some in N. unfold Count in C. lia.
  - tauto.
Qed.

(** X13. On every handle the constructor builds, whatever the archive and
    the answers of the codec, the four vectors have the same length and
    each index below the count denotes one entry in all of them: a name,
    the hash of that very name, a descriptor and a locator. *)
Theorem ZipFile_new_parallel `{BufOps} (u : option unzFile) (i : Z) :
  let zf := ZipFile_new u in
  Count (filenameHashes zf) = GetFileCount zf /\
  Count (fileinfo zf) = GetFileCount zf /\
  Count (filepos zf) = GetFileCount zf /\
  (0 <= i < GetFileCount zf ->
   exists name fi fpos,
     GetFileName zf i = Some name /\
     At (filenameHashes zf) i = Some (GetQuickHashI name) /\
     At (fileinfo zf) i = Some fi /\
     At (filepos zf) i = Some fpos).
Proof.
  intro zf. pose proof (ZipFile_new_wf u) as W. fold zf in W.
  destruct W as (L1 & L2 & L3 & Hh).
  unfold GetFileCount, Count. rewrite L1, L2, L3.
  split; [reflexivity|]. split; [reflexivity|]. split; [reflexivity|].
  intro R.
  destruct (wf_At zf i (conj L1 (conj L2 (conj L3 Hh))) ltac:(lia))
    as (fpos & fi & name & E1 & E2 & E3).
  { apply Z.leb_gt. unfold Count. lia. }
  exists name, fi, fpos. split; [apply GetFileName_At, E3|].
  split; [|split; assumption].
  rewrite Hh, At_map, E3. reflexivity.
Qed.

Lemma ZipFile_new_parallel_witness :
  let zf := @ZipFile_new ascii_BufOps (Some broken_after_two) in
  exists name fi fpos,
    GetFileName zf 1 = Some name /\
    At (filenameHashes zf) 1 = Some (GetQuickHashI name) /\
    At (fileinfo zf) 1 = Some fi /\
    At (filepos zf) 1 = Some fpos.
Proof.
  apply (proj2 (proj2 (proj2
           (@ZipFile_new_parallel ascii_BufOps (Some broken_after_two) 1)))).
  vm_compute. split; [discriminate | reflexivity].
Defined.

(** ** More on the lookup by name *)

Lemma GetFileIndex_range (p : Platform) (fuel : nat) (zf : ZipFile)
    (filename : tstring) (r : Z) :
  GetFileIndex p fuel zf filename = Ret r -> 0 <= r.
Proof.
  intro R. apply GetFileIndex_returns in R. cbv zeta in R.
  destruct R as [[_ ->] | (J & -> & _)].
  - destruct p; discriminate.
  - apply (Find_hit _ _ _ eq_refl J).
Qed.

(** X14. What a lookup that returns has found, on a handle that keeps its
    invariant: either [NOT_FOUND], and then no entry has a name equal to
    the name looked up, or the index of an entry whose name [GetFileName]
    gives and which is equal to the name looked up, no entry before it
    being so. *)
Theorem GetFileIndex_lowest_match (p : Platform) (fuel : nat) (zf : ZipFile)
    (filename : tstring) (r : Z) :
  wf zf ->
  GetFileIndex p fuel zf filename = Ret r ->
  (r = NOT_FOUND p /\
   forall k name, GetFileName zf k = Some name -> EqI filename name = false)
  \/
  (exists name,
     GetFileName zf r = Some name /\ EqI filename name = true /\
     forall k name', 0 <= k < r -> GetFileName zf k = Some name' ->
                     EqI filename name' = false).
Proof.
  intros W R.
  destruct (GetFileIndex_sound p fuel zf filename r W R)
    as [[E N] | (P & (name & A & E) & N)].
  - left. split; [exact E|]. intros k name G.
    apply (N k name). apply GetFileName_At, G.
  - right. exists name. split; [apply GetFileName_At, A|].
    split; [exact E|]. intros k name' K G.
    apply (N k name' K). apply GetFileName_At, G.
Qed.

Lemma GetFileIndex_lowest_match_witness :
  exists name,
    GetFileName two_distinct 1 = Some name /\
    EqI (tstr "DATA.BIN") name = true /\
    forall k name', 0 <= k < 1 -> GetFileName two_distinct k = Some name' ->
                    EqI (tstr "DATA.BIN") name' = false.
Proof.
  assert (R : GetFileIndex Win32 1 two_distinct (tstr "DATA.BIN") = Ret 1)
    by (vm_compute; reflexivity).
  destruct (GetFileIndex_lowest_match Win32 1 two_distinct (tstr "DATA.BIN") 1
              (ZipFile_new_wf _) R) as [[E _] | F].
  - vm_compute in E. discriminate.
  - exact F.
Defined.

(** X15. When the lookup returns at all. On a handle that keeps its
    invariant [GetFileIndex] returns, for some number of turns of its
    loop, exactly when the first entry whose hash is the hash of the name,
    if there is one, has a name equal to it; it then returns within the
    first turn. *)
Theorem GetFileIndex_returns_iff (p : Platform) (zf : ZipFile)
    (filename : tstring) :
  wf zf ->
  ((exists fuel r, GetFileIndex p fuel zf filename = Ret r) <->
   (forall name,
      At (filenames zf)
         (Find (filenameHashes zf) (GetQuickHashI filename) 0) = Some name ->
      EqI filename name = true)) /\
  ((exists fuel r, GetFileIndex p fuel zf filename = Ret r) ->
   exists r, GetFileIndex p 1 zf filename = Ret r).
Proof.
  intro W.
  assert (Fwd : (exists fuel r, GetFileIndex p fuel zf filename = Ret r) ->
                forall name,
                  At (filenames zf)
                     (Find (filenameHashes zf) (GetQuickHashI filename) 0)
                  = Some name ->
                  EqI filename name = true).
  { intros (fuel & r & R) name A.
    apply GetFileIndex_returns in R. cbv zeta in R.
    destruct R as [[J _] | (_ & _ & name' & A' & E)].
    - rewrite J in A. discriminate.
    - rewrite A in A'. injection A' as <-. exact E. }
  assert (Bwd : (forall name,
                   At (filenames zf)
                      (Find (filenameHashes zf) (GetQuickHashI filename) 0)
                   = Some name ->
                   EqI filename name = true) ->
                exists r, GetFileIndex p 1 zf filename = Ret r).
  { intro NC.
    destruct (GetFileIndex_returns_without_collision p zf filename W NC)
      as [r R].
    exists r. apply (R O). }
  split; [split|].
  - exact Fwd.
  - intro NC. destruct (Bwd NC) as [r R]. exists 1%nat, r. exact R.
  - intro Ex. apply Bwd, Fwd, Ex.
Qed.

Lemma GetFileIndex_returns_iff_witness :
  exists r, GetFileIndex Win32 1 two_distinct (tstr "nomatch") = Ret r.
Proof.
  apply (proj2 (GetFileIndex_returns_iff Win32 two_distinct (tstr "nomatch")
                  (ZipFile_new_wf _))).
  exists 1%nat, (NOT_FOUND Win32). vm_compute. reflexivity.
Defined.

Lemma nth_error_NoDup_eq (l : list Z) (i j : nat) (x : Z) :
  NoDup l -> nth_error l i = Some x -> nth_error l j = Some x -> i = j.
Proof.
  intros N I J.
  apply (proj1 (NoDup_nth_error l) N).
  - apply nth_error_Some. rewrite I. discriminate.
  - rewrite I, J. reflexivity.
Qed.

(** X16. In an archive whose stored hashes are pairwise distinct, every
    entry is found at its own index under its stored name and under every
    name that differs from it in case only, within one turn of the loop. *)
Theorem GetFileIndex_finds_entry (p : Platform) (zf : ZipFile)
    (filename name : tstring) (i : Z) (fuel : nat) :
  wf zf ->
  NoDup (filenameHashes zf) ->
  GetFileName zf i = Some name ->
  EqI filename name = true ->
  GetFileIndex p (S fuel) zf filename = Ret i.
Proof.
  intros W N G E. pose proof W as (_ & _ & _ & Hh).
  apply GetFileName_At in G.
  assert (Hi : At (filenameHashes zf) i = Some (GetQuickHashI filename)).
  { rewrite Hh, At_map, G. simpl.
    rewrite (GetQuickHashI_bytes filename name); [reflexivity|].
    apply EqI_fold_byte, E. }
  assert (P : 0 <= i).
  { unfold At in G. destruct (i <? 0) eqn:L; [discriminate|].
    apply Z.ltb_ge in L. exact L. }
  set (j := Find (filenameHashes zf) (GetQuickHashI filename) 0).
  assert (J : j <> -1).
  { intro J.
    apply (Find_miss _ _ j i eq_refl P (or_introl J)). exact Hi. }
  destruct (Find_hit _ _ j eq_refl J) as [Pj Hj].
  assert (Eq : j = i).
  { unfold At in Hi, Hj.
    replace (i <? 0) with false in Hi by (symmetry; apply Z.ltb_ge; lia).
    replace (j <? 0) with false in Hj by (symmetry; apply Z.ltb_ge; lia).
    pose proof (nth_error_NoDup_eq _ _ _ _ N Hj Hi). lia. }
  unfold GetFileIndex. cbn [GetFileIndex_loop]. fold j. cbv zeta.
  replace (j =? -1) with false by (symmetry; apply Z.eqb_neq, J).
  rewrite Eq, G, E. reflexivity.
Qed.

Lemma GetFileIndex_finds_entry_witness :
  GetFileIndex Win64 (S 0) two_distinct (tstr "DATA.bin") = Ret 1.
Proof.
  apply (GetFileIndex_finds_entry Win64 two_distinct (tstr "DATA.bin")
           (tstr "data.bin") 1 0).
  - apply ZipFile_new_wf.
  - vm_compute. repeat constructor; simpl; intuition discriminate.
  - reflexivity.
  - reflexivity.
Defined.

(** ** More on [GetFileData] *)

(** Close a goal [exists r log', Ret (..., log ++ ...) = Ret (r, log ++ log')
    /\ facts], the facts being computed on the events of the run. *)
Ltac close_run :=
  log_shape;
  first [ eexists; eexists; split;
          [ reflexivity | repeat split; first [reflexivity | cbn; lia] ]
        | eexists; exists []; rewrite app_nil_r; split;
          [ reflexivity | repeat split; first [reflexivity | cbn; lia] ] ].

Lemma resources_of_GetFileData `{BufOps} (p : Platform) (w : Answers)
    (zf : ZipFile) (fileindex : Z) (log : list Event) :
  wf zf -> 0 <= fileindex ->
  exists r log',
    GetFileData p w zf fileindex log = Ret (r, log ++ log') /\
    live_buffers log' = (if is_some r then 1 else 0) /\
    ecount is_Close log' =
      (if ans_OpenCurrentFile w =? UNZ_OK then ecount is_Open log' else 0) /\
    ecount is_Open log' <= 1 /\
    ecount is_WriteAll log' = 0.
Proof.
  intros W P. unfold GetFileData.
  destruct (ans_OpenCurrentFile w =? UNZ_OK) eqn:OP;
    (destruct (uf zf) as [a|]; [|close_run]);
    (destruct (Count (filenames zf) <=? fileindex) eqn:C; [close_run|]);
    destruct (wf_At zf fileindex W P C) as (fpos & fi & name & E1 & E2 & E3);
    destruct (ans_ReadCurrentFile w (to_uint (to_size_t p (uncompressed_size fi))))
      as [r bytes] eqn:R;
    run; rewrite E1; run;
    repeat (rewrite ?E2, ?E3, ?R, ?OP; run; try case_if); close_run.
Qed.

(** X17. [GetFileData] leaks neither the buffer nor the entry. Whatever
    the codec and the allocator answer, on a handle that keeps its
    invariant it returns, a buffer is left allocated exactly when one is
    returned to the caller, the entry is opened at most once, and it is
    closed exactly once when it was opened and not at all otherwise. *)
Theorem GetFileData_resources `{BufOps} (p : Platform) (w : Answers)
    (zf : ZipFile) (fileindex : Z) (log : list Event) :
  wf zf -> 0 <= fileindex ->
  exists r log',
    GetFileData p w zf fileindex log = Ret (r, log ++ log') /\
    live_buffers log' = (if is_some r then 1 else 0) /\
    ecount is_Open log' <= 1 /\
    ecount is_Close log' =
      (if ans_OpenCurrentFile w =? UNZ_OK then ecount is_Open log' else 0).
Proof.
  intros W P.
  destruct (resources_of_GetFileData p w zf fileindex log W P)
    as (r & log' & R & L & C & O & _).
  exists r, log'. tauto.
Qed.

Lemma GetFileData_resources_witness :
  exists r log',
    @GetFileData ascii_BufOps Win32 (answers [1; 2; 3] UNZ_OK) one_small 0 [] =
      Ret (r, [] ++ log') /\
    live_buffers log' = (if is_some r then 1 else 0) /\
    ecount is_Open log' <= 1 /\
    ecount is_Close log' =
      (if ans_OpenCurrentFile (answers [1; 2; 3] UNZ_OK) =? UNZ_OK
       then ecount is_Open log' else 0).
Proof.
  apply (@GetFileData_resources ascii_BufOps Win32 (answers [1; 2; 3] UNZ_OK)
           one_small 0 []).
  - apply ZipFile_new_wf.
  - lia.
Defined.

Lemma full_read_of_GetFileData `{BufOps} (p : Platform) (w : Answers)
    (zf : ZipFile) (fileindex : Z) (log : list Event)
    (fpos : unz64_file_pos) (fi : unz_file_info64) (bytes : list Z) :
  uf zf <> None ->
  fileindex < Count (filenames zf) ->
  At (filepos zf) fileindex = Some fpos ->
  At (fileinfo zf) fileindex = Some fi ->
  0 <= uncompressed_size fi < 2 ^ 32 ->
  uncompressed_size fi + sizeof_WCHAR < 2 ^ size_bits p ->
  full_read_answers w fpos (uncompressed_size fi) bytes ->
  GetFileData p w zf fileindex log =
  Ret (Some (bytes ++ [0; 0], uncompressed_size fi),
       log ++ [E_unzGoToFilePos64 fpos; E_unzOpenCurrentFile;
               E_Alloc (uncompressed_size fi + sizeof_WCHAR) true;
               E_unzReadCurrentFile (uncompressed_size fi);
               E_unzCloseCurrentFile]).
Proof.
  intros U C E1 E2 R32 Rw (F1 & F2 & F3 & F4 & F5 & F6 & F7).
  set (u := uncompressed_size fi) in *.
  assert (S1 : to_size_t p u = u).
  { unfold to_size_t. apply Z.mod_small. unfold sizeof_WCHAR in Rw. lia. }
  assert (S2 : to_size_t p (u + sizeof_WCHAR) = u + sizeof_WCHAR).
  { unfold to_size_t. apply Z.mod_small. unfold sizeof_WCHAR in *. lia. }
  assert (S3 : to_uint u = u) by (unfold to_uint; apply Z.mod_small; lia).
  unfold GetFileData. destruct (uf zf) as [a|]; [|contradiction].
  replace (Count (filenames zf) <=? fileindex) with false
    by (symmetry; apply Z.leb_gt; exact C).
  run. rewrite E1. run.
  replace (num_of_file fpos =? INVALID_ZIP_FILE_POS) with false
    by (symmetry; apply Z.eqb_neq; exact F1).
  run. rewrite F2. run. rewrite F3. run. rewrite E2. run. fold u.
  rewrite S1, S2, Z.eqb_refl.
  replace (u + sizeof_WCHAR <? sizeof_WCHAR) with false
    by (symmetry; apply Z.ltb_ge; lia).
  run. rewrite F4. run. rewrite S3, F5. run. rewrite S3, Z.eqb_refl. run.
  rewrite F7. run. log_shape.
  rewrite firstn_all2 by (unfold Count in F6; lia). reflexivity.
Qed.

(** X18. A full read. When the cached locator is accepted, the entry opens,
    its size together with the padding fits the size type, the buffer is
    allocated, the read delivers as many bytes as the entry reports and
    the entry closes without error, [GetFileData] returns the bytes read
    followed by two zero bytes, with the size of the entry as length; it
    has asked for [size + 2] bytes of memory and for [size] bytes of data,
    and has made no search by name. *)
Theorem GetFileData_full_read `{BufOps} (p : Platform) (w : Answers)
    (zf : ZipFile) (fileindex : Z) (log : list Event)
    (fpos : unz64_file_pos) (fi : unz_file_info64) (bytes : list Z) :
  uf zf <> None ->
  fileindex < Count (filenames zf) ->
  At (filepos zf) fileindex = Some fpos ->
  At (fileinfo zf) fileindex = Some fi ->
  0 <= uncompressed_size fi < 2 ^ 32 ->
  uncompressed_size fi + sizeof_WCHAR < 2 ^ size_bits p ->
  full_read_answers w fpos (uncompressed_size fi) bytes ->
  GetFileData p w zf fileindex log =
  Ret (Some (bytes ++ [0; 0], uncompressed_size fi),
       log ++ [E_unzGoToFilePos64 fpos; E_unzOpenCurrentFile;
               E_Alloc (uncompressed_size fi + sizeof_WCHAR) true;
               E_unzReadCurrentFile (uncompressed_size fi);
               E_unzCloseCurrentFile]).
Proof. exact (full_read_of_GetFileData p w zf fileindex log fpos fi bytes). Qed.

Lemma full_read_one_small :
  full_read_answers (answers [1; 2; 3; 4; 5] UNZ_OK)
    {| pos_in_zip_directory := 0; num_of_file := 0 |} 5 [1; 2; 3; 4; 5].
Proof.
  unfold full_read_answers. simpl.
  repeat split; try reflexivity. vm_compute. discriminate.
Qed.

Lemma GetFileData_full_read_witness :
  @GetFileData ascii_BufOps Win32 (answers [1; 2; 3; 4; 5] UNZ_OK) one_small 0 [] =
  Ret (Some ([1; 2; 3; 4; 5] ++ [0; 0], 5),
       [] ++ [E_unzGoToFilePos64 {| pos_in_zip_directory := 0; num_of_file := 0 |};
              E_unzOpenCurrentFile; E_Alloc (5 + sizeof_WCHAR) true;
              E_unzReadCurrentFile 5; E_unzCloseCurrentFile]).
Proof.
  apply (@GetFileData_full_read ascii_BufOps Win32
           (answers [1; 2; 3; 4; 5] UNZ_OK) one_small 0 []
           {| pos_in_zip_directory := 0; num_of_file := 0 |}
           (plain_info 5) [1; 2; 3; 4; 5]).
  - discriminate.
  - reflexivity.
  - reflexivity.
  - reflexivity.
  - simpl. lia.
  - simpl. unfold sizeof_WCHAR. lia.
  - exact full_read_one_small.
Defined.

Lemma At_lt {A : Type} (els : list A) (i : Z) (x : A) :
  At els i = Some x -> 0 <= i < Count els.
Proof.
  unfold At, Count. destruct (i <? 0) eqn:L; [discriminate|].
  apply Z.ltb_ge in L. intro E.
  assert (N : nth_error els (Z.to_nat i) <> None) by (rewrite E; discriminate).
  apply nth_error_Some in N. lia.
Qed.

(** X19. An entry that reports 2^32 bytes or more is never read, on either
    platform: with a 32-bit size type the guard rejects it, and with a
    64-bit one the count of bytes read is held in an [unsigned int], which
    cannot equal such a size. [GetFileData] returns [NULL] and leaves no
    buffer allocated. *)
Theorem GetFileData_4GiB `{BufOps} (p : Platform) (w : Answers)
    (zf : ZipFile) (fileindex : Z) (log : list Event) :
  wf zf -> 0 <= fileindex ->
  (forall fi, At (fileinfo zf) fileindex = Some fi ->
              2 ^ 32 <= uncompressed_size fi) ->
  exists log',
    GetFileData p w zf fileindex log = Ret (None, log ++ log') /\
    live_buffers log' = 0.
Proof.
  intros W P Big. unfold GetFileData.
  destruct (uf zf) as [a|]; [|close_log].
  destruct (Count (filenames zf) <=? fileindex) eqn:C; [close_log|].
  destruct (wf_At zf fileindex W P C) as (fpos & fi & name & E1 & E2 & E3).
  specialize (Big fi E2).
  destruct (ans_ReadCurrentFile w (to_uint (to_size_t p (uncompressed_size fi))))
    as [r bytes] eqn:R.
  destruct (negb (to_size_t p (uncompressed_size fi) =? uncompressed_size fi)
            || (to_size_t p (to_size_t p (uncompressed_size fi) + sizeof_WCHAR)
                <? sizeof_WCHAR)) eqn:G.
  - run. rewrite E1. run.
    repeat (rewrite ?E2, ?E3, ?G; run; try case_if); close_log.
  - destruct (overflow_check_passes p _ G) as (S1 & _).
    assert (D : negb (to_uint r =? to_size_t p (uncompressed_size fi)) = true).
    { rewrite S1. apply negb_true_iff, Z.eqb_neq. unfold to_uint.
      pose proof (Z.mod_pos_bound r (2 ^ 32) ltac:(lia)). lia. }
    run. rewrite E1. run.
    repeat (rewrite ?E2, ?E3, ?G, ?R, ?D; run; try case_if); close_log.
Qed.

Lemma GetFileData_4GiB_witness :
  exists log',
    @GetFileData ascii_BufOps Win64 (answers_read 0 []) one_4GiB 0 [] =
      Ret (None, [] ++ log') /\
    live_buffers log' = 0.
Proof.
  apply (@GetFileData_4GiB ascii_BufOps Win64 (answers_read 0 []) one_4GiB 0 []).
  - apply ZipFile_new_wf.
  - lia.
  - intros fi A. vm_compute in A. injection A as <-. vm_compute. discriminate.
Defined.

(** X20. The order in which an entry is located. The cached locator is
    tried exactly when it is not the sentinel, and at most once; a search
    by name is made exactly when the locator is the sentinel or the codec
    rejects it, and it is for the stored name re-encoded in the code page
    of the entry. *)
Theorem GetFileData_locator_order `{BufOps} (p : Platform) (w : Answers)
    (zf : ZipFile) (fileindex : Z) (log : list Event)
    (fpos : unz64_file_pos) (fi : unz_file_info64) (name : tstring) :
  uf zf <> None ->
  At (filepos zf) fileindex = Some fpos ->
  At (fileinfo zf) fileindex = Some fi ->
  At (filenames zf) fileindex = Some name ->
  exists r log',
    GetFileData p w zf fileindex log = Ret (r, log ++ log') /\
    ecount is_GoToFilePos log' =
      (if num_of_file fpos =? INVALID_ZIP_FILE_POS then 0 else 1) /\
    located log' =
      (if (num_of_file fpos =? INVALID_ZIP_FILE_POS)
          || negb (ans_GoToFilePos64 w fpos =? UNZ_OK)
       then [ToCodePageBuf MAX_PATH name (entry_cp fi)] else []).
Proof.
  intros U E1 E2 E3. unfold GetFileData.
  destruct (uf zf) as [a|]; [|contradiction].
  replace (Count (filenames zf) <=? fileindex) with false
    by (symmetry; apply Z.leb_gt; apply (At_lt _ _ _ E3)).
  destruct (ans_ReadCurrentFile w (to_uint (to_size_t p (uncompressed_size fi))))
    as [r bytes] eqn:R.
  destruct (num_of_file fpos =? INVALID_ZIP_FILE_POS) eqn:Inv;
    destruct (ans_GoToFilePos64 w fpos =? UNZ_OK) eqn:Go;
    run; rewrite E1; run; rewrite ?Inv; run; rewrite ?Go; run;
    repeat (rewrite ?E2, ?E3, ?R, ?Inv, ?Go; run; try case_if); close_run.
Qed.

Lemma GetFileData_locator_order_witness :
  exists r log',
    @GetFileData ascii_BufOps Win32 (answers_no_pos [1; 2; 3; 4; 5]) one_small
      0 [] = Ret (r, [] ++ log') /\
    ecount is_GoToFilePos log' = 1 /\
    located log' = [tstr "dir/file.bin"].
Proof.
  apply (@GetFileData_locator_order ascii_BufOps Win32
           (answers_no_pos [1; 2; 3; 4; 5]) one_small 0 []
           {| pos_in_zip_directory := 0; num_of_file := 0 |}
           (plain_info 5) (tstr "dir/file.bin")).
  - discriminate.
  - reflexivity.
  - reflexivity.
  - reflexivity.
Defined.

Lemma Find_at_not_in (els : list Z) (el s i : Z) :
  ~ In el els -> Find_at els el s i = -1.
Proof.
  revert i. induction els as [|x els IH]; intros i N; [reflexivity|].
  simpl. replace (x =? el) with false.
  - rewrite andb_false_r. apply IH. intro I. apply N. right. exact I.
  - symmetry. apply Z.eqb_neq. intro E. apply N. left. exact E.
Qed.

(** X21. A name whose hash is the hash of no stored name is not in the
    archive, and every operation by name says so without a call to the
    codec or to the file system: the lookup returns [NOT_FOUND], the read
    returns [NULL], the extraction returns [false] and the time stamp is
    the invalid one. The vectors are taken to hold fewer entries than
    [(size_t)-1]. *)
Theorem missing_name_operations `{BufOps} `{WinTime} (p : Platform)
    (fuel : nat) (w : Answers) (zf : ZipFile) (filename dir : tstring)
    (unzippedName : option tstring) (log : list Event) :
  wf zf ->
  ~ In (GetQuickHashI filename) (filenameHashes zf) ->
  Count (filenames zf) <= NOT_FOUND p ->
  GetFileIndex p (S fuel) zf filename = Ret (NOT_FOUND p) /\
  GetFileData_name p (S fuel) w zf filename log = Ret (None, log) /\
  UnzipFile p (S fuel) w zf filename dir unzippedName log = Ret (false, log) /\
  GetFileTime_name p (S fuel) zf filename = Ret invalid_FILETIME.
Proof.
  intros (_ & L2 & _) N C.
  assert (I : GetFileIndex p (S fuel) zf filename = Ret (NOT_FOUND p)).
  { unfold GetFileIndex. cbn [GetFileIndex_loop]. unfold Find.
    rewrite (Find_at_not_in _ _ 0 0 N). reflexivity. }
  assert (D : GetFileData_name p (S fuel) w zf filename log = Ret (None, log)).
  { unfold GetFileData_name, bind, lift. rewrite I. unfold GetFileData.
    destruct (uf zf); [|reflexivity].
    replace (Count (filenames zf) <=? NOT_FOUND p) with true
      by (symmetry; apply Z.leb_le; exact C).
    reflexivity. }
  split; [exact I|]. split; [exact D|]. split.
  - unfold UnzipFile, bind at 1. rewrite D. reflexivity.
  - unfold GetFileTime_name. rewrite I. unfold GetFileTime.
    replace (NOT_FOUND p <? Count (fileinfo zf)) with false.
    + rewrite andb_false_r. reflexivity.
    + symmetry. apply Z.ltb_ge. unfold Count in *. rewrite L2. exact C.
Qed.

Lemma missing_name_operations_witness :
  GetFileIndex Win32 (S 0) two_distinct (tstr "nomatch") = Ret (NOT_FOUND Win32) /\
  @GetFileData_name ascii_BufOps Win32 (S 0) (answers [] UNZ_OK) two_distinct
    (tstr "nomatch") [] = Ret (None, []) /\
  @UnzipFile ascii_BufOps Win32 (S 0) (answers [] UNZ_OK) two_distinct
    (tstr "nomatch") (tstr "C:\out") None [] = Ret (false, []) /\
  @GetFileTime_name plain_WinTime Win32 (S 0) two_distinct (tstr "nomatch") =
    Ret invalid_FILETIME.
Proof.
  apply (@missing_name_operations ascii_BufOps plain_WinTime Win32 0
           (answers [] UNZ_OK) two_distinct (tstr "nomatch") (tstr "C:\out")
           None []).
  - apply ZipFile_new_wf.
  - vm_compute. intuition discriminate.
  - vm_compute. discriminate.
Defined.

(** ** [GetFileTime] and [GetComment] *)

Lemma HIWORD_LOWORD (x : Z) :
  0 <= x < 2 ^ 32 ->
  HIWORD x = x / 65536 /\ LOWORD x = x mod 65536 /\
  0 <= x / 65536 < 65536 /\ x = x / 65536 * 65536 + x mod 65536.
Proof.
  intro R. unfold HIWORD, LOWORD. change 0xFFFF with (Z.ones 16).
  rewrite !Z.land_ones, Z.shiftr_div_pow2 by lia.
  change (2 ^ 16) with 65536.
  assert (B : 0 <= x / 65536 < 65536).
  { split; [apply Z.div_pos; lia | apply Z.div_lt_upper_bound; lia]. }
  split; [apply Z.mod_small; exact B|]. split; [reflexivity|].
  split; [exact B|].
  pose proof (Z.div_mod x 65536 ltac:(lia)). lia.
Qed.

(** X22. [GetFileTime] on an open handle and an index below the count
    splits the 32-bit DOS time stamp of the entry into its two 16-bit
    halves, the date above the time, and returns the conversion of the
    pair to a file time and from local to universal time; for an index at
    or past the count, as on a closed handle, it returns the invalid time
    stamp, which it never computes from an entry. *)
Theorem GetFileTime_spec `{WinTime} (zf : ZipFile) (fileindex : Z) :
  (forall fi,
     uf zf <> None ->
     At (fileinfo zf) fileindex = Some fi ->
     0 <= dosDate fi < 2 ^ 32 ->
     let date := dosDate fi / 65536 in
     let time := dosDate fi mod 65536 in
     dosDate fi = date * 65536 + time /\
     0 <= date < 65536 /\ 0 <= time < 65536 /\
     GetFileTime zf fileindex =
       Ret (LocalFileTimeToFileTime (DosDateTimeToFileTime date time))) /\
  (uf zf = None \/ Count (fileinfo zf) <= fileindex ->
   GetFileTime zf fileindex = Ret invalid_FILETIME).
Proof.
  split.
  - intros fi U A R date time.
    destruct (HIWORD_LOWORD (dosDate fi) R) as (Hh & Hl & B & D).
    split; [exact D|]. split; [exact B|].
    split; [apply Z.mod_pos_bound; lia|].
    unfold GetFileTime. destruct (uf zf); [|contradiction]. cbn [is_some andb].
    replace (fileindex <? Count (fileinfo zf)) with true
      by (symmetry; apply Z.ltb_lt; apply (At_lt _ _ _ A)).
    rewrite A, Hh, Hl. reflexivity.
  - intros [U | C]; unfold GetFileTime.
    + rewrite U. reflexivity.
    + replace (fileindex <? Count (fileinfo zf)) with false
        by (symmetry; apply Z.ltb_ge; exact C).
      rewrite andb_false_r. reflexivity.
Qed.

Lemma GetFileTime_spec_witness :
  @GetFileTime plain_WinTime one_dated 0 =
    Ret {| dwLowDateTime := 25541; dwHighDateTime := 16591 |} /\
  @GetFileTime plain_WinTime one_dated 1 = Ret invalid_FILETIME.
Proof.
  split.
  - apply (proj1 (@GetFileTime_spec plain_WinTime one_dated 0) dated_info).
    + discriminate.
    + reflexivity.
    + vm_compute. split; [discriminate | reflexivity].
  - apply (proj2 (@GetFileTime_spec plain_WinTime one_dated 1)).
    right. vm_compute. discriminate.
Defined.

(** X23. [GetComment] asks the allocator for [commentLen + 1] bytes
    first; it asks the codec for the comment exactly when that succeeded
    and the handle is open, and returns the comment exactly when the codec
    then reports a positive count. The length it reports is [commentLen],
    not the count the codec returned. The scratch buffer is left allocated
    exactly when it is handed to the caller. *)
Theorem GetComment_spec (w : Answers) (zf : ZipFile) (log : list Event) :
  let asked := ans_Alloc w (commentLen zf + 1) && is_some (uf zf) in
  let got := asked && (0 <? fst (ans_GetGlobalComment w (commentLen zf))) in
  exists r log',
    GetComment w zf log = Ret (r, log ++ log') /\
    r = (if got
         then Some (snd (ans_GetGlobalComment w (commentLen zf)), commentLen zf)
         else None) /\
    ecount is_GetGlobalComment log' = (if asked then 1 else 0) /\
    live_buffers log' = (if got then 1 else 0).
Proof.
  cbv zeta. unfold GetComment.
  destruct (ans_GetGlobalComment w (commentLen zf)) as [read bytes] eqn:G.
  cbn [fst snd].
  destruct (ans_Alloc w (commentLen zf + 1)) eqn:A;
    destruct (uf zf) as [a|] eqn:U; cbn [is_some andb negb]; run;
    rewrite ?A; run.
  - rewrite Z.leb_antisym.
    destruct (0 <? read) eqn:Pos; cbn [negb]; run; close_run.
  - close_run.
  - close_run.
  - close_run.
Qed.

Example GetComment_runs :
  GetComment (answers_comment 4 [104; 101; 121; 33]) commented [] =
    Ret (Some ([104; 101; 121; 33], 4),
         [E_Alloc 5 true; E_unzGetGlobalComment 4]) /\
  GetComment (answers_comment 0 []) commented [] =
    Ret (None, [E_Alloc 5 true; E_unzGetGlobalComment 4; E_Free true]).
Proof. split; vm_compute; reflexivity. Qed.

(** ** More on [UnzipFile] *)

Lemma live_buffers_app (a b : list Event) :
  live_buffers (a ++ b) = live_buffers a + live_buffers b.
Proof.
  induction a as [|e a IH]; [reflexivity|].
  destruct e as [| | | | | |size ok|buffer|]; cbn [app live_buffers];
    try exact IH.
  - destruct ok; lia.
  - destruct buffer; lia.
Qed.

Lemma ecount_app (f : Event -> bool) (a b : list Event) :
  ecount f (a ++ b) = ecount f a + ecount f b.
Proof.
  unfold ecount, Count. rewrite filter_app, length_app. lia.
Qed.

(** X24. [UnzipFile] leaves no buffer allocated and writes a file exactly
    when the entry was read. Whenever the lookup of the name returns, on a
    handle that keeps its invariant, [UnzipFile] returns. When
    [GetFileData] gave no buffer, it makes no call beyond those of
    [GetFileData], writes no file and returns [false]. When [GetFileData]
    gave a buffer, it makes one write, of the content to the destination
    path, releases the buffer after the write and returns what the write
    answered. In both cases no buffer is left allocated. *)
Theorem UnzipFile_resources `{BufOps} (p : Platform) (fuel : nat) (w : Answers)
    (zf : ZipFile) (filename dir : tstring) (unzippedName : option tstring)
    (log : list Event) (fileindex : Z) :
  wf zf ->
  GetFileIndex p fuel zf filename = Ret fileindex ->
  exists r log1 ok log',
    GetFileData p w zf fileindex log = Ret (r, log ++ log1) /\
    UnzipFile p fuel w zf filename dir unzippedName log = Ret (ok, log ++ log') /\
    live_buffers log' = 0 /\
    ecount is_WriteAll log' = (if is_some r then 1 else 0) /\
    match r with
    | None => ok = false /\ log' = log1
    | Some (buf, len) =>
        let path := UnzipFile_path filename dir unzippedName in
        let content := firstn (Z.to_nat len) buf in
        ok = ans_WriteAll w path content /\
        log' = log1 ++ [E_WriteAll path content; E_Free true]
    end.
Proof.
  intros W I.
  destruct (resources_of_GetFileData p w zf fileindex log W
              (GetFileIndex_range p fuel zf filename fileindex I))
    as (r & log1 & R & L & _ & _ & Wr).
  exists r, log1.
  unfold UnzipFile, GetFileData_name, bind, lift. rewrite I, R.
  destruct r as [[buf len]|]; cbn [is_some] in L |- *.
  - run. eexists. exists (log1 ++ [E_WriteAll
                 (UnzipFile_path filename dir unzippedName)
                 (firstn (Z.to_nat len) buf); E_Free true]).
    split; [reflexivity|].
    split; [rewrite <- !app_assoc; reflexivity|].
    rewrite live_buffers_app, ecount_app, L, Wr.
    split; [reflexivity|]. split; [reflexivity|]. split; reflexivity.
  - exists false, log1. split; [reflexivity|]. split; [reflexivity|].
    rewrite L, Wr. split; [reflexivity|]. split; [reflexivity|].
    split; reflexivity.
Qed.

Lemma UnzipFile_resources_witness :
  exists r log1 ok log',
    @GetFileData ascii_BufOps Win32 (answers [1; 2; 3] UNZ_OK) one_small 0 [] =
      Ret (r, [] ++ log1) /\
    @UnzipFile ascii_BufOps Win32 1 (answers [1; 2; 3] UNZ_OK) one_small
      (tstr "DIR/FILE.BIN") (tstr "C:\out") None [] = Ret (ok, [] ++ log') /\
    live_buffers log' = 0 /\
    ecount is_WriteAll log' = (if is_some r then 1 else 0) /\
    match r with
    | None => ok = false /\ log' = log1
    | Some (buf, len) =>
        let path := UnzipFile_path (tstr "DIR/FILE.BIN") (tstr "C:\out") None in
        let content := firstn (Z.to_nat len) buf in
        ok = ans_WriteAll (answers [1; 2; 3] UNZ_OK) path content /\
        log' = log1 ++ [E_WriteAll path content; E_Free true]
    end.
Proof.
  apply (@UnzipFile_resources ascii_BufOps Win32 1 (answers [1; 2; 3] UNZ_OK)
           one_small (tstr "DIR/FILE.BIN") (tstr "C:\out") None [] 0).
  - apply ZipFile_new_wf.
  - vm_compute. reflexivity.
Defined.

(** The two runs of an extraction on an entry of five bytes: after a short
    read nothing is written; after a full read the content is written and
    the buffer released. *)
Example UnzipFile_runs :
  @UnzipFile ascii_BufOps Win32 1 (answers [1; 2; 3] UNZ_OK) one_small
    (tstr "DIR/FILE.BIN") (tstr "C:\out") None [] =
  Ret (false,
       [E_unzGoToFilePos64 {| pos_in_zip_directory := 0; num_of_file := 0 |};
        E_unzOpenCurrentFile; E_Alloc 7 true; E_unzReadCurrentFile 5;
        E_Free true; E_unzCloseCurrentFile]) /\
  @UnzipFile ascii_BufOps Win32 1 (answers [1; 2; 3; 4; 5] UNZ_OK) one_small
    (tstr "DIR/FILE.BIN") (tstr "C:\out") None [] =
  Ret (true,
       [E_unzGoToFilePos64 {| pos_in_zip_directory := 0; num_of_file := 0 |};
        E_unzOpenCurrentFile; E_Alloc 7 true; E_unzReadCurrentFile 5;
        E_unzCloseCurrentFile;
        E_WriteAll (tstr "C:\out\DIR\FILE.BIN") [1; 2; 3; 4; 5];
        E_Free true]).
Proof. split; vm_compute; reflexivity. Qed.

(** X25. Without an override name the path [UnzipFile] writes to holds no
    '/' at all, and it has as many characters as the directory, with its
    closing '\', and the name together: the translation replaces
    characters one for one and removes none, so the components of the
    name, ".." included, are kept. *)
Theorem UnzipFile_path_no_slash (filename dir : tstring) :
  ~ In SLASH (UnzipFile_path filename dir None) /\
  Count (UnzipFile_path filename dir None) =
    Count (join_dir dir) + Count filename.
Proof.
  rewrite UnzipFile_path_eq. split.
  - unfold TransChars. rewrite <- map_app.
    intro I. apply in_map_iff in I. destruct I as (c & E & _).
    destruct (c =? SLASH) eqn:S.
    + discriminate.
    + apply Z.eqb_neq in S. contradiction.
  - unfold Count, TransChars.
    rewrite length_app, !length_map, Nat2Z.inj_add. reflexivity.
Qed.

Lemma firstn_app_exact {A : Type} (a b : list A) :
  firstn (List.length a) (a ++ b) = a.
Proof.
  induction a as [|x a IH]; simpl; [reflexivity|]. rewrite IH. reflexivity.
Qed.

(** X26. What an extraction writes. When the lookup of the name returns an
    index and the entry at that index is read in full, [UnzipFile] writes
    the bytes the codec delivered, without the two bytes of padding, in
    one write, releases the buffer and returns what the write answered. *)
Theorem UnzipFile_writes_content `{BufOps} (p : Platform) (fuel : nat)
    (w : Answers) (zf : ZipFile) (filename dir : tstring)
    (unzippedName : option tstring) (log : list Event) (fileindex : Z)
    (fpos : unz64_file_pos) (fi : unz_file_info64) (bytes : list Z) :
  GetFileIndex p fuel zf filename = Ret fileindex ->
  uf zf <> None ->
  fileindex < Count (filenames zf) ->
  At (filepos zf) fileindex = Some fpos ->
  At (fileinfo zf) fileindex = Some fi ->
  0 <= uncompressed_size fi < 2 ^ 32 ->
  uncompressed_size fi + sizeof_WCHAR < 2 ^ size_bits p ->
  full_read_answers w fpos (uncompressed_size fi) bytes ->
  let path := UnzipFile_path filename dir unzippedName in
  UnzipFile p fuel w zf filename dir unzippedName log =
  Ret (ans_WriteAll w path bytes,
       log ++ [E_unzGoToFilePos64 fpos; E_unzOpenCurrentFile;
               E_Alloc (uncompressed_size fi + sizeof_WCHAR) true;
               E_unzReadCurrentFile (uncompressed_size fi);
               E_unzCloseCurrentFile;
               E_WriteAll path bytes; E_Free true]).
Proof.
  intros I U C E1 E2 R32 Rw F path.
  pose proof (full_read_of_GetFileData p w zf fileindex log fpos fi bytes
                U C E1 E2 R32 Rw F) as G.
  unfold UnzipFile, GetFileData_name, bind, lift. rewrite I, G. fold path.
  destruct F as (_ & _ & _ & _ & _ & F6 & _).
  assert (Cut : firstn (Z.to_nat (uncompressed_size fi)) (bytes ++ [0; 0]) = bytes).
  { rewrite <- F6. unfold Count. rewrite Nat2Z.id. apply firstn_app_exact. }
  rewrite Cut. run. rewrite <- !app_assoc. reflexivity.
Qed.

Lemma UnzipFile_writes_content_witness :
  @UnzipFile ascii_BufOps Win32 1 (answers [1; 2; 3; 4; 5] UNZ_OK) one_small
    (tstr "dir/file.bin") (tstr "C:\out") (Some (tstr "copy.bin")) [] =
  Ret (true,
       [] ++ [E_unzGoToFilePos64 {| pos_in_zip_directory := 0; num_of_file := 0 |};
              E_unzOpenCurrentFile; E_Alloc (5 + sizeof_WCHAR) true;
              E_unzReadCurrentFile 5; E_unzCloseCurrentFile;
              E_WriteAll (tstr "C:\out\copy.bin") [1; 2; 3; 4; 5];
              E_Free true]).
Proof.
  apply (@UnzipFile_writes_content ascii_BufOps Win32 1
           (answers [1; 2; 3; 4; 5] UNZ_OK) one_small (tstr "dir/file.bin")
           (tstr "C:\out") (Some (tstr "copy.bin")) [] 0
           {| pos_in_zip_directory := 0; num_of_file := 0 |}
           (plain_info 5) [1; 2; 3; 4; 5]).
  - vm_compute. reflexivity.
  - discriminate.
  - reflexivity.
  - reflexivity.
  - reflexivity.
  - simpl. lia.
  - simpl. unfold sizeof_WCHAR. lia.
  - exact full_read_one_small.
Defined.
